(** * frappe.ui.Capture: the camera-capture dialog

    A shallow embedding of [frappe/public/js/frappe/ui/capture.js]: the
    frame-capture helper [frappe._.get_data_uri] and the class
    [frappe.ui.Capture] with its constructor, [set_options], [render],
    [show], [hide], [stop_media_stream] and [submit], together with the
    five click handlers that [render] binds on the dialog.

    The class mutates [this], the media streams handed out by the browser
    and the dialog; all of it is threaded explicitly through a [World].
    The promise returned by [getUserMedia] is a request of the world that
    the browser later resolves or rejects.

    The helpers on users of [frappe/public/js/frappe/misc/user.js] follow
    the definitions of the dialog; their properties close the file. *)

From Stdlib Require Import ZArith Ascii.
From stdpp Require Import base option list strings gmap sorting.

Local Open Scope string_scope.

(** ** JavaScript values held by the option objects *)

Inductive JSVal :=
| VUndefined
| VNull
| VBool (b : bool)
| VNum (n : Z)
| VStr (s : string)
| VPromise (p : nat).          (* the p-th request made of the browser *)

(** What [if (v)] tests. *)
Definition truthy (v : JSVal) : bool :=
  match v with
  | VUndefined | VNull => false
  | VBool b => b
  | VNum n => negb (n =? 0)%Z
  | VStr s => negb (String.eqb s "")
  | VPromise _ => true
  end.

(** A property read [o.k]: a missing key reads as [undefined]. *)
Definition get (o : gmap string JSVal) (k : string) : JSVal :=
  default VUndefined (o !! k).

(** ** DOM elements used by the capture dialog *)

(** A track of a media stream; [track.stop()] ends it for good. *)
Inductive ReadyState := live | ended.

Record MediaStream := {
  facingMode : string;          (* the constraint it was acquired under *)
  getTracks : list ReadyState
}.

(** The [<video>] element of the template.  [videoWidth], [videoHeight]
    and the frame on display are set by the browser while it plays. *)
Record Video := {
  srcObject : option nat;       (* index of the stream in the world *)
  playing : bool;
  videoWidth : Z;
  videoHeight : Z;
  frame : nat
}.

Inductive DrawOp :=
| drawImage (element : Video) (dx dy dWidth dHeight : Z).

Record Canvas := {
  width : Z;
  height : Z;
  context : list DrawOp
}.

(** [$('<canvas/>')]: a fresh canvas is 300 x 150 and blank. *)
Definition new_canvas : Canvas :=
  {| width := 300; height := 150; context := [] |}.

(** Assigning a dimension resets the bitmap. *)
Definition set_width (c : Canvas) (w : Z) : Canvas :=
  {| width := w; height := height c; context := [] |}.

Definition set_height (c : Canvas) (h : Z) : Canvas :=
  {| width := width c; height := h; context := [] |}.

Definition draw (c : Canvas) (op : DrawOp) : Canvas :=
  {| width := width c; height := height c; context := (context c ++ [op])%list |}.

(** A drawing that keeps the element at its native size. *)
Definition unscaled (op : DrawOp) : Prop :=
  match op with
  | drawImage element _ _ dWidth dHeight =>
      dWidth = videoWidth element ∧ dHeight = videoHeight element
  end.

(** A drawing that fills the canvas from its origin. *)
Definition fills (c : Canvas) (op : DrawOp) : Prop :=
  match op with
  | drawImage _ dx dy dWidth dHeight =>
      dx = 0%Z ∧ dy = 0%Z ∧ dWidth = width c ∧ dHeight = height c
  end.

(** ** The dialog *)

(** The closures that [render] binds on the dialog, named after the label
    under which they are bound. *)
Inductive Handler :=
| TakePhoto
| Submit
| SwitchCamera
| Retake
| TakeMultiple.

Record Button := {
  label : string;
  visible : bool;
  click : option Handler
}.

(** [$e]: the instantiated [frappe.ui.Capture.TEMPLATE]. *)
Record Template := {
  fc_preview_src : option string;
  fc_preview : bool;            (* is the <img class="fc-preview"> shown *)
  fc_stream : bool;             (* is the <video class="fc-stream"> shown *)
  video : Video
}.

(** Modelled from the spec: [frappe.ui.Dialog], the ModalPresenter, is not
    among the sources.  Following the spec's external interfaces and design
    notes, it presents one primary action, one secondary action and tagged
    custom actions; binding an action rebinds the slot, and [hide]
    dismisses the dialog and runs the [on_hide] it was configured with. *)
Record Dialog := {
  title : JSVal;
  animate : JSVal;
  display : bool;
  primary_btn : Button;
  secondary_btn : Button;
  custom_actions : list (string * Button);   (* css class, button *)
  body : option Template
}.

(** Modelled from the spec: a button of [frappe.ui.Dialog] before an
    action is bound to it. *)
Definition blank_btn : Button :=
  {| label := ""; visible := false; click := None |}.

(** Modelled from the spec: [new frappe.ui.Dialog({title, animate,
    on_hide})], the presenter's [present(config)]; the dialog is not yet on
    display and has no action. *)
Definition new_Dialog (title animate : JSVal) : Dialog :=
  {| title := title; animate := animate; display := false;
     primary_btn := blank_btn; secondary_btn := blank_btn;
     custom_actions := []; body := None |}.

Definition with_primary (f : Button → Button) (d : Dialog) : Dialog :=
  {| title := title d; animate := animate d; display := display d;
     primary_btn := f (primary_btn d); secondary_btn := secondary_btn d;
     custom_actions := custom_actions d; body := body d |}.

Definition with_secondary (f : Button → Button) (d : Dialog) : Dialog :=
  {| title := title d; animate := animate d; display := display d;
     primary_btn := primary_btn d; secondary_btn := f (secondary_btn d);
     custom_actions := custom_actions d; body := body d |}.

Definition with_custom
    (f : list (string * Button) → list (string * Button)) (d : Dialog) : Dialog :=
  {| title := title d; animate := animate d; display := display d;
     primary_btn := primary_btn d; secondary_btn := secondary_btn d;
     custom_actions := f (custom_actions d); body := body d |}.

Definition with_body (f : option Template → option Template) (d : Dialog) : Dialog :=
  {| title := title d; animate := animate d; display := display d;
     primary_btn := primary_btn d; secondary_btn := secondary_btn d;
     custom_actions := custom_actions d; body := f (body d) |}.

Definition with_display (b : bool) (d : Dialog) : Dialog :=
  {| title := title d; animate := animate d; display := b;
     primary_btn := primary_btn d; secondary_btn := secondary_btn d;
     custom_actions := custom_actions d; body := body d |}.

(** jQuery's [.show()], [.hide()] and [.off('click')] on a button. *)
Definition btn_show (b : Button) : Button :=
  {| label := label b; visible := true; click := click b |}.

Definition btn_hide (b : Button) : Button :=
  {| label := label b; visible := false; click := click b |}.

Definition btn_off_click (b : Button) : Button :=
  {| label := label b; visible := visible b; click := None |}.

(** Modelled from the spec: [set_primary_action(label, fn)] of
    [frappe.ui.Dialog]; the primary slot is rebound to the label and the
    handler, and the button is presented. *)
Definition set_primary_action (l : string) (h : Handler) : Dialog → Dialog :=
  with_primary (λ _, {| label := l; visible := true; click := Some h |}).

(** Modelled from the spec: [set_secondary_action_label(label)] of
    [frappe.ui.Dialog]; the secondary button is relabelled and presented,
    its handler stays. *)
Definition set_secondary_action_label (l : string) : Dialog → Dialog :=
  with_secondary (λ b, {| label := l; visible := true; click := click b |}).

(** Modelled from the spec: [set_secondary_action(fn)] of
    [frappe.ui.Dialog]; the secondary slot is rebound to the handler, its
    label stays. *)
Definition set_secondary_action (h : Handler) : Dialog → Dialog :=
  with_secondary (λ b, {| label := label b; visible := true; click := Some h |}).

(** Modelled from the spec: [add_custom_action(label, fn, css_class)] of
    [frappe.ui.Dialog]; one more tagged button, presented. *)
Definition add_custom_action (l : string) (h : Handler) (css_class : string)
    : Dialog → Dialog :=
  with_custom (λ bs,
    (bs ++ [(css_class, {| label := l; visible := true; click := Some h |})])%list).

(** [custom_actions.find("." + css_class)] followed by a jQuery method: the
    method is applied to every match. *)
Definition custom_find (css_class : string) (f : Button → Button)
    : Dialog → Dialog :=
  with_custom (map (λ cb : string * Button,
    if String.eqb cb.1 css_class then (cb.1, f cb.2) else cb)).

(** [$e.find(...)] followed by a jQuery method. *)
Definition fc_preview_attr_src (src : string) (e : Template) : Template :=
  {| fc_preview_src := Some src; fc_preview := fc_preview e;
     fc_stream := fc_stream e; video := video e |}.

Definition fc_preview_set (b : bool) (e : Template) : Template :=
  {| fc_preview_src := fc_preview_src e; fc_preview := b;
     fc_stream := fc_stream e; video := video e |}.

Definition fc_stream_set (b : bool) (e : Template) : Template :=
  {| fc_preview_src := fc_preview_src e; fc_preview := fc_preview e;
     fc_stream := b; video := video e |}.

Definition with_video (f : Video → Video) (e : Template) : Template :=
  {| fc_preview_src := fc_preview_src e; fc_preview := fc_preview e;
     fc_stream := fc_stream e; video := f (video e) |}.

(** [frappe.ui.Capture.TEMPLATE]: the preview image starts with
    [display: none], the video is shown. *)
Definition TEMPLATE : Template :=
  {| fc_preview_src := None; fc_preview := false; fc_stream := true;
     video := {| srcObject := None; playing := false;
                 videoWidth := 0; videoHeight := 0; frame := 0 |} |}.

(** ** The session object and the world around it *)

(** A consumer registered through [submit]; it is opaque, so a call to it
    is recorded with its argument and has no effect on the session. *)
Definition Callback := nat.

Record Capture := {
  options : gmap string JSVal;
  facing_mode : string;
  images : list string;
  stream : option nat;          (* index of the stream in the world *)
  dialog : option Dialog;
  callback : option Callback
}.

(** What the page around the session observes, in order. *)
Inductive Effect :=
| FxGetUserMedia (facingMode : string)
| FxAlert (message : string) (seconds : option Z)
| FxDialogShow
| FxDialogHide
| FxStopTracks (stream : nat)
| FxCallback (fn : Callback) (images : list string)
| FxUncaught (err : string).

(** A [getUserMedia] promise. *)
Inductive Request :=
| pending (facingMode : string)
| resolved (stream : nat)
| rejected (err : string).

Record World := {
  this : Capture;
  streams : list MediaStream;   (* every stream the browser handed out *)
  requests : list Request;      (* every getUserMedia call made so far *)
  log : list Effect
}.

Definition with_this (f : Capture → Capture) (w : World) : World :=
  {| this := f (this w); streams := streams w;
     requests := requests w; log := log w |}.

Definition with_streams (f : list MediaStream → list MediaStream) (w : World)
    : World :=
  {| this := this w; streams := f (streams w);
     requests := requests w; log := log w |}.

Definition with_requests (f : list Request → list Request) (w : World) : World :=
  {| this := this w; streams := streams w;
     requests := f (requests w); log := log w |}.

Definition emit (e : Effect) (w : World) : World :=
  {| this := this w; streams := streams w;
     requests := requests w; log := (log w ++ [e])%list |}.

Definition set_facing_mode (m : string) (c : Capture) : Capture :=
  {| options := options c; facing_mode := m; images := images c;
     stream := stream c; dialog := dialog c; callback := callback c |}.

Definition set_images (l : list string) (c : Capture) : Capture :=
  {| options := options c; facing_mode := facing_mode c; images := l;
     stream := stream c; dialog := dialog c; callback := callback c |}.

Definition set_stream (s : option nat) (c : Capture) : Capture :=
  {| options := options c; facing_mode := facing_mode c; images := images c;
     stream := s; dialog := dialog c; callback := callback c |}.

Definition set_dialog (d : option Dialog) (c : Capture) : Capture :=
  {| options := options c; facing_mode := facing_mode c; images := images c;
     stream := stream c; dialog := d; callback := callback c |}.

Definition set_callback (fn : option Callback) (c : Capture) : Capture :=
  {| options := options c; facing_mode := facing_mode c; images := images c;
     stream := stream c; dialog := dialog c; callback := fn |}.

(** A method call on [this.dialog].  It is made by [render] once the dialog
    is created and by handlers, which run on a click in the dialog: the
    dialog is there. *)
Definition on_dialog (f : Dialog → Dialog) : World → World :=
  with_this (λ c, set_dialog (f <$> dialog c) c).

(** A jQuery call on the [$e] that sits in the body of [this.dialog]. *)
Definition on_template (f : Template → Template) : World → World :=
  on_dialog (with_body (fmap f)).

(** [Array.prototype.push] and [Array.prototype.pop] on [this.images]. *)
Definition push (x : string) (l : list string) : list string := (l ++ [x])%list.
Definition pop (l : list string) : list string := removelast l.

(** A stand-in for the browser's encoder, to run the model on concrete
    input: the data URI names the MIME type and the frame drawn on the
    canvas. *)
Definition sample_toDataURL (c : Canvas) (type : string) : string :=
  match context c with
  | [drawImage v _ _ _ _] =>
      "data:" ++ type ++ ";base64,"
        ++ String (Ascii.ascii_of_nat (65 + frame v)) ""
  | _ => "data:,"
  end.

(** A stand-in for the translation: the message itself. *)
Definition untranslated (message : string) : string := message.

(** ** frappe/public/js/frappe/misc/user.js

    The helpers on users: [get_abbr], [frappe.user_info],
    [frappe.get_gravatar], [frappe.user.has_role],
    [frappe.user.is_report_manager], [frappe.user.get_desktop_items] and
    [frappe.user.get_user_desktop_items].  A string is a sequence of code
    units below 256.  [Object.prototype] is as the browser made it. *)

(** *** What [split], [trim] and [indexOf] do *)

(** The white space that [trim] removes, among the code units below 256:
    tab, line feed, vertical tab, form feed, carriage return, space and
    no-break space. *)
Definition is_white_space (c : Ascii.ascii) : bool :=
  let n := Ascii.nat_of_ascii c in
  Nat.eqb n 9 || Nat.eqb n 10 || Nat.eqb n 11 || Nat.eqb n 12
  || Nat.eqb n 13 || Nat.eqb n 32 || Nat.eqb n 160.

Fixpoint trimStart (s : string) : string :=
  match s with
  | String c s' => if is_white_space c then trimStart s' else s
  | EmptyString => ""
  end.

Fixpoint trimEnd (s : string) : string :=
  match s with
  | String c s' =>
      match trimEnd s' with
      | EmptyString => if is_white_space c then "" else String c ""
      | t => String c t
      end
  | EmptyString => ""
  end.

Definition trim (s : string) : string := trimEnd (trimStart s).

(** [s.split(sep)] for a separator of one code unit: the pieces between
    the separators, at least one. *)
Fixpoint split (sep : Ascii.ascii) (s : string) : list string :=
  match s with
  | String c s' =>
      if Ascii.eqb c sep then "" :: split sep s'
      else match split sep s' with
           | piece :: pieces => String c piece :: pieces
           | [] => [String c ""]
           end
  | EmptyString => [""]
  end.

(** [l.indexOf(x) != -1] *)
Definition found (l : list string) (x : string) : bool :=
  existsb (String.eqb x) l.

(** *** Reading a property of a plain object

    [frappe.boot.user_info], [frappe.gravatars] and [frappe.modules] are
    plain objects used as tables.  A read [table[k]] finds an own property
    of the table or, when there is none, the member of [Object.prototype]
    of that name, which every plain object inherits: "constructor",
    "toString" and the like read as functions, "__proto__" as
    [Object.prototype] itself.  A member is an object, so it is truthy,
    and it has none of the properties that the helpers read of an entry
    ([fullname], [force_show], [type]): they read [undefined] on it. *)

Inductive Read (A : Type) :=
| own (a : A)                   (* an own property of the table *)
| member (name : string)        (* the member of Object.prototype *)
| undefined.

Arguments own {A} a.
Arguments member {A} name.
Arguments undefined {A}.

(** [table[k]]; [proto] lists the names of the members of
    [Object.prototype]. *)
Definition read {A} (proto : list string) (table : gmap string A) (k : string)
    : Read A :=
  match table !! k with
  | Some a => own a
  | None => if found proto k then member k else undefined
  end.

(** The names of the members of [Object.prototype] in a browser. *)
Definition Object_prototype : list string :=
  ["constructor"; "__defineGetter__"; "__defineSetter__"; "hasOwnProperty";
   "__lookupGetter__"; "__lookupSetter__"; "isPrototypeOf";
   "propertyIsEnumerable"; "toString"; "valueOf"; "__proto__";
   "toLocaleString"].

(** *** [get_abbr] *)

(** The body of [$.each(txt.split(" "), ...)]: [return false] leaves the
    loop, [return true] goes on with the next word. *)
Fixpoint each_word (limit : Z) (words : list string) (abbr : string) : string :=
  match words with
  | [] => abbr
  | w :: words =>
      if (limit <=? Z.of_nat (String.length abbr))%Z then abbr
      else match trim w with
           | EmptyString => each_word limit words abbr
           | String c _ => each_word limit words (abbr ++ String c "")
           end
  end.

(** [max_length || 2]: a missing or zero [max_length] reads as 2. *)
Definition limit_of (max_length : option Z) : Z :=
  match max_length with
  | Some n => if (n =? 0)%Z then 2%Z else n
  | None => 2%Z
  end.

(** [get_abbr(txt, max_length)]; [None] is an argument left out (or
    [undefined], [null]). *)
Definition get_abbr (txt : option string) (max_length : option Z) : string :=
  match txt with
  | None | Some EmptyString => ""
  | Some txt =>
      let abbr := each_word (limit_of max_length) (split " "%char txt) "" in
      match abbr with
      | EmptyString => "?"
      | _ => abbr
      end
  end.

(** The first code unit of every word that is not blank, in order. *)
Definition initials (words : list string) : list Ascii.ascii :=
  omap (λ w, match trim w with String c _ => Some c | EmptyString => None end)
       words.

(** *** [frappe.user_info] *)

Record UserInfo := {
  fullname : option string;
  image : option string;
  abbr : option string
}.

(** What [frappe.user_info] hands back: an entry, the one of the boot
    table or one made up, or the member of [Object.prototype] that the
    table inherits under the name asked for (for "constructor", the
    function [Object]), with the [abbr] that the call assigned to it. *)
Inductive Subject :=
| entry (info : UserInfo)
| builtin (name : string) (abbr : string).

(** [fullname] and [abbr] as they read on what was handed back. *)
Definition fullname_of (r : Subject) : option string :=
  match r with
  | entry info => fullname info
  | builtin _ _ => None
  end.

Definition abbr_of (r : Subject) : option string :=
  match r with
  | entry info => abbr info
  | builtin _ a => Some a
  end.

(** [frappe.user_info(uid)]: [user] is the global of the session user,
    [toTitle] the framework's title-casing, [proto] the names of the
    members of [Object.prototype]; [boot] is [frappe.boot.user_info] when
    [frappe.boot] is there, and the table when it is there too.  Without
    [frappe.boot] the read of [frappe.boot.user_info] is a TypeError,
    [None].  The record of a known user is the one in the table: the
    assignment to its [abbr] is seen there.  A name that the table only
    inherits is known as well: the member is handed back, and the
    abbreviation of its [fullname], which it has not, is assigned to it. *)
Definition user_info (toTitle : string → string) (user : string)
    (proto : list string)
    (boot : option (option (gmap string UserInfo))) (uid : option string)
    : option (Subject * option (gmap string UserInfo)) :=
  let uid := match uid with
             | None | Some EmptyString => user
             | Some uid => uid
             end in
  match boot with
  | None => None
  | Some boot_user_info =>
      let known := match boot_user_info with
                   | Some table => read proto table uid
                   | None => undefined
                   end in
      match known with
      | undefined =>
          let fullname := match toTitle (hd "" (split "@"%char uid)) with
                          | EmptyString => "Unknown"
                          | t => t
                          end in
          Some (entry {| fullname := Some fullname; image := None;
                         abbr := Some (get_abbr (Some fullname) None) |},
                boot_user_info)
      | own info =>
          let info := {| fullname := fullname info; image := image info;
                         abbr := Some (get_abbr (fullname info) None) |} in
          Some (entry info, <[uid := info]> <$> boot_user_info)
      | member name =>
          Some (builtin name (get_abbr None None), boot_user_info)
      end
  end.

(** *** [frappe.get_gravatar] *)

(** [frappe.get_gravatar(email_id)] over the cache [frappe.gravatars];
    [md5] is the library loaded by [frappe.require], [proto] the names of
    the members of [Object.prototype].  What the cache reads under the
    address is handed back: a URL, or the member that the cache inherits
    under that name, which is truthy, so that nothing is stored. *)
Definition get_gravatar (md5 : string → string) (proto : list string)
    (gravatars : gmap string string) (email_id : string)
    : Read string * gmap string string :=
  let gravatars :=
    match read proto gravatars email_id with
    | own (String _ _) | member _ => gravatars
    | own EmptyString | undefined =>
        <[email_id := "https://secure.gravatar.com/avatar/"
                      ++ md5 email_id ++ "?d=retro"]> gravatars
    end in
  (read proto gravatars email_id, gravatars).

(** *** [frappe.user.has_role] and [frappe.user.is_report_manager] *)

(** [has_role(rl)]: [rl] is one role or an array of roles; [boot_roles] is
    [frappe.boot.user.roles] when [frappe.boot] is there.  The function
    returns [true] from inside the loop and nothing after it. *)
Definition has_role (boot_roles : option (list string))
    (rl : string + list string) : JSVal :=
  let rl := match rl with inl r => [r] | inr rl => rl end in
  let roles := default ["Guest"] boot_roles in
  if existsb (found roles) rl then VBool true else VUndefined.

Definition is_report_manager (boot_roles : option (list string)) : JSVal :=
  has_role boot_roles
    (inr ["Administrator"; "System Manager"; "Report Manager"]).

(** *** [frappe.user.get_desktop_items] *)

(** An entry of [frappe.modules]. *)
Record ModuleDef := {
  type : option string;
  link : option string;
  doctype : option string;
  force_show : bool
}.

(** What [get_desktop_items] reads of the page; [frappe.boot] is there. *)
Record Desk := {
  modules : list (string * ModuleDef);   (* frappe.modules, in key order *)
  prototype : list string;    (* the names of the members of Object.prototype *)
  desktop_items : option (list string);  (* get_default("_desktop_items") *)
  user_desktop_items : option (list string);
                                  (* get_default("_user_desktop_items") *)
  hidden_modules : option (list string);
                  (* JSON.parse(frappe.boot.hidden_modules), when present *)
  allow_modules : list string;           (* frappe.boot.user.allow_modules *)
  allowed_pages : list string;           (* frappe.boot.allowed_pages *)
  can_read : option string → bool        (* frappe.model.can_read *)
}.

(** [keys(frappe.modules)] and the own property [frappe.modules[m]]. *)
Definition keys (d : Desk) : list string := (modules d).*1.

Definition module_of (d : Desk) (m : string) : option ModuleDef :=
  snd <$> List.find (λ e : string * ModuleDef, String.eqb e.1 m) (modules d).

(** The loop that pushes every module missing from the user's list. *)
Definition add_missing (ms : list string) (modules_list : list string)
    : list string :=
  fold_left (λ l m, if found l m then l else (l ++ [m])%list) ms modules_list.

(** [modules_list] before the two filters. *)
Definition candidates (global : bool) (d : Desk) : list string :=
  let modules_list :=
    if global then None
    else match desktop_items d with
         | Some (m :: user_list) => Some (add_missing (keys d) (m :: user_list))
         | _ => None
         end in
  match modules_list with
  | Some (m :: modules_list) => m :: modules_list
  | _ => merge_sort (≤)%string (keys d)
  end.

(** [$.map(array, fn)] where [fn] may throw: a [null] result is dropped;
    [None] is the exception. *)
Fixpoint map_or_throw (fn : string → option (option string))
    (array : list string) : option (list string) :=
  match array with
  | [] => Some []
  | m :: array =>
      r ← fn m; rs ← map_or_throw fn array;
      Some (match r with Some x => x :: rs | None => rs end)
  end.

(** The callback that filters hidden modules.  For a name that
    [frappe.modules] only inherits, [frappe.modules[m]] is the member of
    [Object.prototype], whose [force_show] reads [undefined]; for any
    other name that is not in [frappe.modules], reading [force_show] of
    [undefined] is a TypeError. *)
Definition unless_hidden (d : Desk) (hidden_list : list string) (m : string)
    : option (option string) :=
  if negb (found hidden_list m) then Some (Some m)
  else match module_of d m with
       | Some md => Some (if force_show md then Some m else None)
       | None => if found (prototype d) m then Some None else None
       end.

(** The callback that hides by permission.  A member of
    [Object.prototype] has no [type], like a name that is not in
    [frappe.modules]: both go through the [default] case. *)
Definition if_permitted (d : Desk) (m : string) : option string :=
  match module_of d m ≫= type with
  | Some t =>
      if String.eqb t "module" then
        if found (allow_modules d) m then Some m else None
      else if String.eqb t "page" then
        match module_of d m ≫= link with
        | Some l => if found (allowed_pages d) l then Some m else None
        | None => None
        end
      else if String.eqb t "list" then
        if can_read d (module_of d m ≫= doctype) then Some m else None
      else Some m
  | None => Some m
  end.

(** [get_desktop_items(global)]; [None] is the TypeError. *)
Definition get_desktop_items (global : bool) (d : Desk) : option (list string) :=
  let modules_list := candidates global d in
  let filtered : option (list string) :=
    match hidden_modules d with
    | Some hidden_list =>
        map_or_throw (unless_hidden d hidden_list) modules_list
    | None => Some modules_list
    end in
  match filtered with
  | Some modules_list => Some (omap (if_permitted d) modules_list)
  | None => None
  end.

(** [get_user_desktop_items()]: a stored list, empty or not, is truthy. *)
Definition get_user_desktop_items (d : Desk) : option (list string) :=
  match user_desktop_items d with
  | Some user_list => Some user_list
  | None => get_desktop_items false d
  end.

(** A module of the list that the hidden-module filter cannot handle: it
    is hidden and [frappe.modules[m]] is [undefined]. *)
Definition stale (d : Desk) (hidden_list : list string) (m : string) : bool :=
  found hidden_list m
  && match module_of d m with Some _ => false | None => true end
  && negb (found (prototype d) m).

(** Does [get_desktop_items(global)] end in the TypeError. *)
Definition throws (global : bool) (d : Desk) : bool :=
  match hidden_modules d with
  | Some hidden_list => existsb (stale d hidden_list) (candidates global d)
  | None => false
  end.

(** A module passes the hidden-module filter: there is no hidden list, it
    is not on it, or its entry says [force_show]. *)
Definition unhidden (d : Desk) (m : string) : bool :=
  match hidden_modules d with
  | Some hidden_list =>
      negb (found hidden_list m)
      || match module_of d m with Some md => force_show md | None => false end
  | None => true
  end.

(** A module passes the permission filter. *)
Definition permitted (d : Desk) (m : string) : bool :=
  match if_permitted d m with Some _ => true | None => false end.

(** A page to run [get_desktop_items] on: three modules, a stored list
    that names one of them and a module that is gone, and a hidden list. *)
Definition sample_desk : Desk :=
  {| prototype := Object_prototype;
     modules :=
       [("Zeta", {| type := Some "module"; link := None; doctype := None;
                    force_show := false |});
        ("Alpha", {| type := Some "page"; link := Some "pg"; doctype := None;
                     force_show := true |});
        ("Mid", {| type := None; link := None; doctype := None;
                   force_show := false |})];
     desktop_items := Some ["Mid"; "Ghost"];
     user_desktop_items := None;
     hidden_modules := Some ["Alpha"; "Mid"];
     allow_modules := ["Zeta"];
     allowed_pages := ["pg"];
     can_read := λ _, true |}.

(** The same page once "Ghost" is put on the hidden list. *)
Definition sample_desk_stale : Desk :=
  {| modules := modules sample_desk;
     prototype := Object_prototype;
     desktop_items := desktop_items sample_desk;
     user_desktop_items := None;
     hidden_modules := Some ["Ghost"];
     allow_modules := allow_modules sample_desk;
     allowed_pages := allowed_pages sample_desk;
     can_read := can_read sample_desk |}.

(** The page once the stored list and the hidden list name "constructor",
    which [frappe.modules] inherits. *)
Definition sample_desk_inherited : Desk :=
  {| modules := modules sample_desk;
     prototype := Object_prototype;
     desktop_items := Some ["Mid"; "constructor"];
     user_desktop_items := None;
     hidden_modules := Some ["constructor"];
     allow_modules := allow_modules sample_desk;
     allowed_pages := allowed_pages sample_desk;
     can_read := can_read sample_desk |}.

Section Capture.

(** [__] is the framework's translation of a message; [toDataURL] is the
    browser's encoder of a canvas for a given MIME type. *)
Variable __ : string → string.
Variable toDataURL : Canvas → string → string.

(** [frappe._.get_data_uri] *)
Definition get_data_uri (element : Video) : string :=
  let width := videoWidth element in
  let height := videoHeight element in
  let canvas := new_canvas in
  let canvas := set_width canvas width in
  let canvas := set_height canvas height in
  let canvas := draw canvas (drawImage element 0 0 width height) in
  let data_uri := toDataURL canvas "image/png" in
  data_uri.

(** The canvas that [get_data_uri] encodes. *)
Definition capture_canvas (element : Video) : Canvas :=
  draw (set_height (set_width new_canvas (videoWidth element))
                   (videoHeight element))
       (drawImage element 0 0 (videoWidth element) (videoHeight element)).

Definition OPTIONS : gmap string JSVal :=
  <["title" := VStr (__ "Camera")]>
    (<["animate" := VBool false]> (<["error" := VBool false]> ∅)).

Definition ERR_MESSAGE : string := __ "Unable to load camera.".

(** [{ ...frappe.ui.Capture.OPTIONS, ...options }]: the keys of [options]
    win over the defaults. *)
Definition set_options (opts : gmap string JSVal) (c : Capture) : Capture :=
  {| options := opts ∪ OPTIONS; facing_mode := facing_mode c;
     images := images c; stream := stream c; dialog := dialog c;
     callback := callback c |}.

(** [new frappe.ui.Capture(options)]; [None] is a call without argument,
    for which the parameter defaults to the empty object. *)
Definition constructor (opts : option (gmap string JSVal)) : Capture :=
  let opts := default ∅ opts in
  let this := {| options := OPTIONS; facing_mode := "environment";
                 images := []; stream := None; dialog := None;
                 callback := None |} in
  set_options opts this.

(** [stream.getTracks().forEach(track => track.stop())] *)
Definition stop_tracks (m : MediaStream) : MediaStream :=
  {| facingMode := facingMode m; getTracks := (λ _, ended) <$> getTracks m |}.

(** [stop_media_stream]: every track of the held stream is stopped. *)
Definition stop_media_stream (w : World) : World :=
  match stream (this w) with
  | Some s => emit (FxStopTracks s) (with_streams (alter stop_tracks s) w)
  | None => w
  end.

(** Modelled from the spec: [hide()] of [frappe.ui.Dialog] dismisses the
    dialog, which then runs the [on_hide] it was configured with; [render]
    configures [() => this.stop_media_stream()]. *)
Definition Dialog_hide (w : World) : World :=
  stop_media_stream (emit FxDialogHide (on_dialog (with_display false) w)).

(** Modelled from the spec: [show()] of [frappe.ui.Dialog] puts the dialog
    on display. *)
Definition Dialog_show (w : World) : World :=
  emit FxDialogShow (on_dialog (with_display true) w).

(** [hide] *)
Definition hide (w : World) : World :=
  let w := match dialog (this w) with
           | Some _ => Dialog_hide w
           | None => w
           end in
  stop_media_stream w.

(** [submit] *)
Definition submit (fn : Callback) : World → World :=
  with_this (set_callback (Some fn)).

(** [render], up to the request: the constraints carry the facing mode
    read at the call; the promise is pending and is what [render] returns. *)
Definition render (w : World) : World * JSVal :=
  let constraints := facing_mode (this w) in
  let p := length (requests w) in
  (emit (FxGetUserMedia constraints)
     (with_requests (λ rs, (rs ++ [pending constraints])%list) w),
   VPromise p).

(** [show]: the continuations [show_then] and [show_catch] are chained to
    the promise of [render] and run when the browser settles it.  The
    method has no [return]: the chained promise is dropped and the call
    evaluates to [undefined] at once. *)
Definition show (w : World) : World * JSVal :=
  let '(w, _) := render w in
  (w, VUndefined).

(** The local function [set_take_photo_action] of [render]. *)
Definition set_take_photo_action (w : World) : World :=
  let w := on_dialog (set_primary_action (__ "Take Photo") TakePhoto) w in
  let w := on_dialog (set_secondary_action_label (__ "Switch Camera")) w in
  let w := on_dialog (set_secondary_action SwitchCamera) w in
  w.

(** The continuation of [getUserMedia] inside [render], run with the
    stream the browser granted.  [this.stream] and [this.dialog] are
    assigned over what they held: the session keeps no other reference to
    the stream and the dialog of an earlier grant.  In the browser a
    dialog replaced while on display stays on screen with its buttons;
    the world keeps the dialog that [this.dialog] holds, and [replaced]
    below tells when a grant leaves such a dialog behind. *)
Definition render_then (s : nat) (w : World) : World :=
  let w := with_this (set_stream (Some s)) w in
  let w := with_this (λ c,
             set_dialog (Some (new_Dialog (get (options c) "title")
                                          (get (options c) "animate"))) c) w in
  let w := set_take_photo_action w in
  let w := on_dialog (set_secondary_action Retake) w in
  let w := on_dialog (add_custom_action (__ "Take Multiple") TakeMultiple
                                        "btn-multiple") w in
  let w := on_dialog (custom_find "btn-multiple" btn_hide) w in
  let e := TEMPLATE in
  let e := with_video (λ v, {| srcObject := stream (this w); playing := true;
                                videoWidth := videoWidth v;
                                videoHeight := videoHeight v;
                                frame := frame v |}) e in
  on_dialog (with_body (λ _, Some e)) w.

(** The [.then] continuation of [show]. *)
Definition show_then (w : World) : World := Dialog_show w.

(** The [.catch] continuation of [show]: the alert is gated by
    [options.error]; the error is thrown again, inside a promise that
    [show] did not return and nobody else holds. *)
Definition show_catch (err : string) (w : World) : World :=
  let w := if truthy (get (options (this w)) "error")
           then emit (FxAlert ERR_MESSAGE (Some 3%Z)) w else w in
  emit (FxUncaught err) w.

(** *** The click handlers bound by [render]

    Each closure captures [this] and the [$e] and [video] of the [render]
    call that created it; the dialog is reached through [this.dialog]. *)

(** The primary action bound under "Take Photo". *)
Definition take_photo (video : Video) (w : World) : World :=
  let data_url := get_data_uri video in
  let w := on_template (fc_preview_attr_src data_url) w in
  let w := with_this (λ c, set_images (push data_url (images c)) c) w in
  let w := on_template (fc_stream_set false) w in
  let w := on_template (fc_preview_set true) w in
  let w := on_dialog (set_secondary_action_label (__ "Retake")) w in
  let w := on_dialog (with_secondary btn_show) w in
  let w := on_dialog (custom_find "btn-multiple" btn_show) w in
  on_dialog (set_primary_action (__ "Submit") Submit) w.

(** The primary action bound under "Submit". *)
Definition submit_photos (w : World) : World :=
  let w := hide w in
  match callback (this w) with
  | Some fn => emit (FxCallback fn (images (this w))) w
  | None => w
  end.

Definition other_facing_mode (m : string) : string :=
  if String.eqb m "environment" then "user" else "environment".

(** The secondary action bound by [set_take_photo_action]. *)
Definition switch_camera (w : World) : World :=
  let w := with_this (λ c,
             set_facing_mode (other_facing_mode (facing_mode c)) c) w in
  let w := emit (FxAlert (__ "Switching Camera") None) w in
  let w := hide w in
  (show w).1.

(** The secondary action bound by [render] itself. *)
Definition retake (w : World) : World :=
  let w := with_this (λ c, set_images (pop (images c)) c) w in
  let w := on_template (fc_preview_set false) w in
  let w := on_template (fc_stream_set true) w in
  let w := on_dialog (with_primary btn_off_click) w in
  set_take_photo_action w.

(** The custom action bound under "Take Multiple". *)
Definition take_multiple (w : World) : World :=
  let w := on_template (fc_preview_set false) w in
  let w := on_template (fc_stream_set true) w in
  let w := on_dialog (with_primary btn_off_click) w in
  let w := on_dialog (custom_find "btn-multiple" btn_hide) w in
  set_take_photo_action w.

Definition run_handler (h : Handler) (video : Video) : World → World :=
  match h with
  | TakePhoto => take_photo video
  | Submit => submit_photos
  | SwitchCamera => switch_camera
  | Retake => retake
  | TakeMultiple => take_multiple
  end.

(** ** Events: calls of the page, the browser, and the user's clicks

    A click is a click in the dialog that [this.dialog] holds. *)

Inductive Event :=
| CallShow
| CallHide
| CallSubmit (fn : Callback)
| Grant (p tracks : nat)        (* the browser resolves request p *)
| Deny (p : nat) (err : string) (* the browser rejects request p *)
| Playback (width height : Z) (frame : nat)
| ClickPrimary
| ClickSecondary
| ClickCustom (i : nat)
| ClickClose.

(** The handler that a click on button [b] of dialog [d] runs: the dialog
    has to be on display and the button visible. *)
Definition pressed (d : Dialog) (b : Button) : option Handler :=
  if display d && visible b then click b else None.

(** The button an event clicks, in the dialog held by the session. *)
Definition target (d : Dialog) (ev : Event) : option Button :=
  match ev with
  | ClickPrimary => Some (primary_btn d)
  | ClickSecondary => Some (secondary_btn d)
  | ClickCustom i => snd <$> custom_actions d !! i
  | _ => None
  end.

(** The handler an event runs, if it is a click that finds one. *)
Definition fires (w : World) (ev : Event) : option Handler :=
  d ← dialog (this w); b ← target d ev; pressed d b.

Definition step (w : World) (ev : Event) : option World :=
  match ev with
  | CallShow => Some (show w).1
  | CallHide => Some (hide w)
  | CallSubmit fn => Some (submit fn w)
  | Grant p tracks =>
      match requests w !! p with
      | Some (pending m) =>
          let s := length (streams w) in
          let w := with_requests (<[p := resolved s]>) w in
          let w := with_streams (λ l,
                     (l ++ [{| facingMode := m;
                               getTracks := replicate tracks live |}])%list) w in
          Some (show_then (render_then s w))
      | _ => None
      end
  | Deny p err =>
      match requests w !! p with
      | Some (pending _) =>
          Some (show_catch err (with_requests (<[p := rejected err]>) w))
      | _ => None
      end
  | Playback width height frame =>
      d ← dialog (this w); e ← body d;
      if playing (video e)
      then Some (on_template (with_video (λ v,
                   {| srcObject := srcObject v; playing := playing v;
                      videoWidth := width; videoHeight := height;
                      frame := frame |})) w)
      else None
  | ClickClose =>
      d ← dialog (this w);
      if display d then Some (hide w) else None
  | ClickPrimary | ClickSecondary | ClickCustom _ =>
      d ← dialog (this w); e ← body d; h ← fires w ev;
      Some (run_handler h (video e) w)
  end.

Fixpoint run (w : World) (evs : list Event) : option World :=
  match evs with
  | [] => Some w
  | ev :: evs => w' ← step w ev; run w' evs
  end.

(** The page with a freshly constructed session. *)
Definition boot (opts : option (gmap string JSVal)) : World :=
  {| this := constructor opts; streams := []; requests := []; log := [] |}.

(** ** Observations on a world *)

Definition is_live (t : ReadyState) : bool :=
  match t with live => true | ended => false end.

(** A stream is active while one of its tracks is live. *)
Definition active (m : MediaStream) : bool := existsb is_live (getTracks m).

(** Is the stream held in [this.stream] active. *)
Definition held_active (w : World) : bool :=
  match stream (this w) ≫= (streams w !!.) with
  | Some m => active m
  | None => false
  end.

(** How many of the streams handed out are active. *)
Definition active_streams (w : World) : nat :=
  length (List.filter active (streams w)).

(** Is the dialog of the session on display. *)
Definition shown (w : World) : bool :=
  match dialog (this w) with
  | Some d => display d
  | None => false
  end.

(** [Idle]: no stream held live, no dialog shown. *)
Definition idle (w : World) : bool := negb (held_active w) && negb (shown w).

(** No stream but the one held in [this.stream] is active. *)
Definition only_held_active (w : World) : Prop :=
  ∀ s m, streams w !! s = Some m → active m = true → stream (this w) = Some s.

(** Everything of a world except the log of effects. *)
Definition state (w : World) : Capture * list MediaStream * list Request :=
  (this w, streams w, requests w).

(** The calls made to registered consumers, and the alerts raised. *)
Definition calls (l : list Effect) : list (Callback * list string) :=
  omap (λ e, match e with FxCallback fn imgs => Some (fn, imgs) | _ => None end) l.

Definition alerts (l : list Effect) : list (string * option Z) :=
  omap (λ e, match e with FxAlert m s => Some (m, s) | _ => None end) l.

(** The custom actions of a rendered dialog: the "Take Multiple" button,
    shown or hidden. *)
Definition multiple_btn (v : bool) : list (string * Button) :=
  [("btn-multiple", {| label := __ "Take Multiple"; visible := v;
                       click := Some TakeMultiple |})].

(** [Previewing]: the dialog is on display with the live video, and the
    primary action is "Take Photo". *)
Definition Previewing (w : World) : Prop :=
  ∃ d e v, dialog (this w) = Some d ∧ body d = Some e ∧ display d = true
    ∧ primary_btn d = {| label := __ "Take Photo"; visible := true;
                         click := Some TakePhoto |}
    ∧ custom_actions d = multiple_btn v
    ∧ fc_stream e = true ∧ fc_preview e = false.

(** [Captured]: the dialog is on display with the captured frame; the
    primary action is "Submit", the secondary button reads "Retake" and
    the "Take Multiple" action is offered. *)
Definition Captured (w : World) : Prop :=
  ∃ d e, dialog (this w) = Some d ∧ body d = Some e ∧ display d = true
    ∧ primary_btn d = {| label := __ "Submit"; visible := true;
                         click := Some Submit |}
    ∧ label (secondary_btn d) = __ "Retake"
    ∧ visible (secondary_btn d) = true
    ∧ custom_actions d = multiple_btn true
    ∧ fc_stream e = false ∧ fc_preview e = true.

(** The frame that "Take Photo" captures from the video of the stream
    [s] while it shows frame [f] at [wd] x [ht]. *)
Definition shot (s : nat) (wd ht : Z) (f : nat) : string :=
  get_data_uri {| srcObject := Some s; playing := true;
                  videoWidth := wd; videoHeight := ht; frame := f |}.

(** Captures made and images removed again along a run of events,
    counted by the closure that runs: the runs of the closure bound under
    "Take Photo" (lines 80-97), and the runs of the closure that pops
    (lines 112-119) that found an image to remove, whatever the secondary
    button reads when it is clicked. *)
Definition captured (w : World) (ev : Event) : nat :=
  match fires w ev with
  | Some TakePhoto => 1
  | _ => 0
  end.

Definition undone (w : World) (ev : Event) : nat :=
  match fires w ev, images (this w) with
  | Some Retake, _ :: _ => 1
  | _, _ => 0
  end.

Fixpoint tally (f : World → Event → nat) (w : World) (evs : list Event) : nat :=
  match evs with
  | [] => 0
  | ev :: evs =>
      f w ev + match step w ev with
               | Some w' => tally f w' evs
               | None => 0
               end
  end.

(** The effects of [hide]: the dialog is dismissed if there is one, and the
    tracks of the held stream are stopped, by [on_hide] and by [hide]. *)
Definition hide_effects (w : World) : list Effect :=
  let stop := match stream (this w) with
              | Some s => [FxStopTracks s]
              | None => []
              end in
  match dialog (this w) with
  | Some _ => FxDialogHide :: stop ++ stop
  | None => stop
  end.



(** The order in which the callback contract is worded: the consumer is
    called as the first thing a submit does. *)
Definition callback_first (w w' : World) (fn : Callback) : Prop :=
  ∃ rest, log w' = (log w ++ FxCallback fn (images (this w)) :: rest)%list.

(** A failure reaches the caller of a method only through what the call
    hands back: a promise the caller can chain on. *)
Definition reaches_caller (ret : JSVal) : Prop := ∃ p, ret = VPromise p.

(** ** The constructor *)

Lemma lookup_set_options opts c k :
  options (set_options opts c) !! k
  = match opts !! k with Some v => Some v | None => OPTIONS !! k end.
Proof.
  unfold set_options; simpl. rewrite lookup_union.
  destruct (opts !! k), (OPTIONS !! k); reflexivity.
Qed.

(** C10: whatever object the constructor is given, an option it omits
    reads as its default (the title is the translated "Camera", animate
    and error are false, so a failed request raises no alert unless
    the caller asked for it), and a new session has the facing mode
    "environment", no image, no stream, no dialog and no callback. *)
Theorem constructor_defaults (opts : option (gmap string JSVal)) :
  let given := default ∅ opts in
  let c := constructor opts in
  (∀ k, options c !! k
        = match given !! k with Some v => Some v | None => OPTIONS !! k end)
  ∧ OPTIONS !! "title" = Some (VStr (__ "Camera"))
  ∧ OPTIONS !! "animate" = Some (VBool false)
  ∧ OPTIONS !! "error" = Some (VBool false)
  ∧ truthy (get (options c) "error")
    = match given !! "error" with Some v => truthy v | None => false end
  ∧ facing_mode c = "environment"
  ∧ images c = []
  ∧ stream c = None ∧ dialog c = None ∧ callback c = None.
Proof.
  intros given c. split.
  { intros k. apply lookup_set_options. }
  repeat split.
  unfold get, c, constructor. rewrite lookup_set_options. fold given.
  destruct (given !! "error"); reflexivity.
Qed.

(** ** Frame capture *)

(** C8: the frame is drawn once, from the origin, onto a canvas that has
    exactly the native width and height of the video, at the native size,
    and the result is that canvas encoded as "image/png". *)
Theorem get_data_uri_native_png (element : Video) :
  ∃ canvas op,
    get_data_uri element = toDataURL canvas "image/png"
    ∧ width canvas = videoWidth element
    ∧ height canvas = videoHeight element
    ∧ context canvas = [op]
    ∧ op = drawImage element 0 0 (videoWidth element) (videoHeight element)
    ∧ fills canvas op
    ∧ unscaled op.
Proof.
  exists (capture_canvas element).
  eexists. repeat split.
Qed.

(** ** Releasing the stream and hiding *)

Lemma stop_tracks_idem m : stop_tracks (stop_tracks m) = stop_tracks m.
Proof.
  unfold stop_tracks; simpl. f_equal.
  rewrite <- list_fmap_compose. reflexivity.
Qed.

Lemma active_stop_tracks m : active (stop_tracks m) = false.
Proof.
  unfold active, stop_tracks; simpl.
  induction (getTracks m) as [|t l IH]; simpl; auto.
Qed.

Lemma alter_stop_tracks_idem s (l : list MediaStream) :
  alter stop_tracks s (alter stop_tracks s l) = alter stop_tracks s l.
Proof.
  rewrite list_alter_alter_eq. apply list_alter_ext; [|reflexivity].
  intros m _. apply stop_tracks_idem.
Qed.

(** What [hide] leaves alone, and what it does to the rest. *)
Lemma hide_frame w :
  options (this (hide w)) = options (this w)
  ∧ facing_mode (this (hide w)) = facing_mode (this w)
  ∧ images (this (hide w)) = images (this w)
  ∧ stream (this (hide w)) = stream (this w)
  ∧ callback (this (hide w)) = callback (this w)
  ∧ requests (hide w) = requests w.
Proof.
  destruct w as [[o fm im [s|] [d|] cb] ss rq lg]; repeat split.
Qed.

Lemma dialog_hide w :
  dialog (this (hide w)) = with_display false <$> dialog (this w).
Proof. destruct w as [[o fm im [s|] [d|] cb] ss rq lg]; reflexivity. Qed.

Lemma streams_hide w :
  streams (hide w)
  = match stream (this w) with
    | Some s => alter stop_tracks s (streams w)
    | None => streams w
    end.
Proof.
  destruct w as [[o fm im [s|] [d|] cb] ss rq lg]; simpl; try reflexivity.
  unfold hide, Dialog_hide; simpl. unfold stop_media_stream; simpl.
  apply alter_stop_tracks_idem.
Qed.

Lemma held_active_hide w : held_active (hide w) = false.
Proof.
  unfold held_active.
  destruct (hide_frame w) as (_ & _ & _ & Hs & _). rewrite Hs, streams_hide.
  destruct (stream (this w)) as [s|]; simpl; [|reflexivity].
  rewrite list_lookup_alter_eq.
  destruct (streams w !! s); simpl; [apply active_stop_tracks | reflexivity].
Qed.

Lemma shown_hide w : shown (hide w) = false.
Proof.
  unfold shown. rewrite dialog_hide.
  destruct (dialog (this w)); reflexivity.
Qed.

Lemma state_hide_hide w : state (hide (hide w)) = state (hide w).
Proof.
  destruct w as [[o fm im [s|] [d|] cb] ss rq lg];
    unfold state, hide, Dialog_hide, stop_media_stream; simpl;
    rewrite ?alter_stop_tracks_idem; reflexivity.
Qed.

Lemma filter_active_nil (l : list MediaStream) :
  (∀ i m, l !! i = Some m → active m = false) → List.filter active l = [].
Proof.
  induction l as [|x l IH]; intros H; simpl; [reflexivity|].
  rewrite (H 0 x eq_refl). apply IH. intros i m. apply (H (S i) m).
Qed.

Lemma active_streams_hide w :
  only_held_active w → active_streams (hide w) = 0.
Proof.
  intros Hone. unfold active_streams. rewrite streams_hide.
  rewrite filter_active_nil; [reflexivity|].
  intros i m Hi. destruct (active m) eqn:Ha; [exfalso|reflexivity].
  destruct (stream (this w)) as [s|] eqn:Hs.
  - destruct (decide (s = i)) as [->|Hne].
    + rewrite list_lookup_alter_eq in Hi.
      destruct (streams w !! i); simpl in Hi; [|discriminate].
      injection Hi as <-. rewrite active_stop_tracks in Ha. discriminate.
    + rewrite list_lookup_alter_ne in Hi by exact Hne.
      specialize (Hone i m Hi Ha). congruence.
  - specialize (Hone i m Hi Ha). congruence.
Qed.

Lemma calls_app l1 l2 : calls (l1 ++ l2) = (calls l1 ++ calls l2)%list.
Proof. unfold calls. apply omap_app. Qed.

Lemma alerts_app l1 l2 : alerts (l1 ++ l2) = (alerts l1 ++ alerts l2)%list.
Proof. unfold alerts. apply omap_app. Qed.

Lemma log_hide w : log (hide w) = (log w ++ hide_effects w)%list.
Proof.
  destruct w as [[o fm im [s|] [d|] cb] ss rq lg];
    unfold hide, hide_effects, Dialog_hide, stop_media_stream; simpl;
    rewrite <- ?app_assoc, ?app_nil_r; reflexivity.
Qed.

Lemma calls_hide_effects w : calls (hide_effects w) = [].
Proof.
  unfold hide_effects.
  destruct (stream (this w)), (dialog (this w)); reflexivity.
Qed.

Lemma stop_tracks_ended m :
  stop_tracks m
  = {| facingMode := facingMode m;
       getTracks := replicate (length (getTracks m)) ended |}.
Proof.
  unfold stop_tracks. f_equal.
  induction (getTracks m) as [|t l IH]; simpl; [reflexivity|].
  f_equal. exact IH.
Qed.

Lemma hide_held_stream w s m :
  stream (this w) = Some s → streams w !! s = Some m →
  streams (hide w) !! s
  = Some {| facingMode := facingMode m;
            getTracks := replicate (length (getTracks m)) ended |}.
Proof.
  intros Hs Hm. rewrite streams_hide, Hs, list_lookup_alter_eq, Hm. simpl.
  rewrite stop_tracks_ended. reflexivity.
Qed.

Lemma hide_other_stream w i :
  stream (this w) ≠ Some i → streams (hide w) !! i = streams w !! i.
Proof.
  intros Hne. rewrite streams_hide.
  destruct (stream (this w)) as [s|]; [|reflexivity].
  apply list_lookup_alter_ne. congruence.
Qed.

(** Stopping one stream takes it off the count of active streams, if it
    was on it. *)
Lemma filter_active_alter (l : list MediaStream) : ∀ s,
  length (List.filter active (alter stop_tracks s l))
  + (if match l !! s with Some m => active m | None => false end
     then 1 else 0)
  = length (List.filter active l).
Proof.
  induction l as [|x l IH]; intros s; [reflexivity|].
  destruct s as [|s].
  - change (alter stop_tracks 0 (x :: l)) with (stop_tracks x :: l).
    simpl. rewrite active_stop_tracks. destruct (active x); simpl; lia.
  - change (alter stop_tracks (S s) (x :: l))
      with (x :: alter stop_tracks s l).
    simpl. specialize (IH s). destruct (active x); simpl; lia.
Qed.

Lemma active_streams_hide_held w :
  active_streams (hide w) + (if held_active w then 1 else 0)
  = active_streams w.
Proof.
  unfold active_streams, held_active. rewrite streams_hide.
  destruct (stream (this w)) as [s|]; simpl; [|lia].
  apply filter_active_alter.
Qed.

(** C7 (amended): [hide] can be called in every state; when it returns,
    the stream held in [this.stream] has the tracks it had, every one of
    them ended, and every other stream is as it was: the count of active
    streams goes down by the held stream and by nothing else, so none is
    left active if none but the held one was.  No dialog is on display.
    A second call right after leaves the session, the streams and the
    requests as the first call left them, and a call on a session that has
    neither a stream nor a dialog changes nothing at all. *)
Theorem hide_releases_held_stream_and_is_idempotent (w : World) :
  step w CallHide = Some (hide w)
  ∧ (∀ s m, stream (this w) = Some s → streams w !! s = Some m →
       streams (hide w) !! s
       = Some {| facingMode := facingMode m;
                 getTracks := replicate (length (getTracks m)) ended |})
  ∧ (∀ i, stream (this w) ≠ Some i → streams (hide w) !! i = streams w !! i)
  ∧ held_active (hide w) = false
  ∧ active_streams (hide w) + (if held_active w then 1 else 0)
    = active_streams w
  ∧ (only_held_active w → active_streams (hide w) = 0)
  ∧ shown (hide w) = false
  ∧ dialog (this (hide w)) = with_display false <$> dialog (this w)
  ∧ log (hide w) = (log w ++ hide_effects w)%list
  ∧ state (hide (hide w)) = state (hide w)
  ∧ (stream (this w) = None → dialog (this w) = None → hide w = w).
Proof.
  split; [reflexivity|].
  split; [apply hide_held_stream|].
  split; [apply hide_other_stream|].
  split; [apply held_active_hide|].
  split; [apply active_streams_hide_held|].
  split; [apply active_streams_hide|].
  split; [apply shown_hide|].
  split; [apply dialog_hide|].
  split; [apply log_hide|].
  split; [apply state_hide_hide|].
  destruct w as [[o fm im st dg cb] ss rq lg]; simpl.
  intros -> ->. reflexivity.
Qed.

(** ** Registering the consumer *)

(** C9: [submit(fn)] records [fn] as the callback, over whichever was
    there, and touches nothing else; and when the Submit action fires on a
    session without callback, the session hides as it does with one: the
    dialog, which was on display, is dismissed, the held stream has every
    one of its tracks ended, and the only effects are the dismissal and
    the stopping of these tracks; no consumer is called, nothing is
    thrown, no callback appears, and images and facing mode are kept. *)
Theorem submit_only_registers (w : World) (fn : Callback) :
  (step w (CallSubmit fn) = Some (submit fn w)
   ∧ callback (this (submit fn w)) = Some fn
   ∧ options (this (submit fn w)) = options (this w)
   ∧ facing_mode (this (submit fn w)) = facing_mode (this w)
   ∧ images (this (submit fn w)) = images (this w)
   ∧ stream (this (submit fn w)) = stream (this w)
   ∧ dialog (this (submit fn w)) = dialog (this w)
   ∧ streams (submit fn w) = streams w
   ∧ requests (submit fn w) = requests w
   ∧ log (submit fn w) = log w)
  ∧ (callback (this w) = None →
     fires w ClickPrimary = Some Submit →
     is_Some (dialog (this w) ≫= body) →
     step w ClickPrimary = Some (hide w)
     ∧ calls (log (hide w)) = calls (log w)
     ∧ callback (this (hide w)) = None
     ∧ shown w = true
     ∧ shown (hide w) = false
     ∧ held_active (hide w) = false
     ∧ (∀ s m, stream (this w) = Some s → streams w !! s = Some m →
          streams (hide w) !! s
          = Some {| facingMode := facingMode m;
                    getTracks := replicate (length (getTracks m)) ended |})
     ∧ log (hide w)
       = (log w ++ FxDialogHide
                :: match stream (this w) with
                   | Some s => [FxStopTracks s; FxStopTracks s]
                   | None => []
                   end)%list
     ∧ images (this (hide w)) = images (this w)
     ∧ facing_mode (this (hide w)) = facing_mode (this w)).
Proof.
  split; [repeat split|].
  intros Hcb Hf [e He].
  destruct (hide_frame w) as (_ & Hfm & Him & _ & Hcb' & _).
  destruct (dialog (this w)) as [d|] eqn:Hd; [|discriminate He].
  assert (Hshown : shown w = true).
  { unfold shown. rewrite Hd. unfold fires, pressed in Hf. rewrite Hd in Hf.
    simpl in Hf. destruct (display d); [reflexivity | discriminate Hf]. }
  split.
  { unfold step. rewrite Hf, Hd. simpl in *. rewrite He; simpl.
    unfold submit_photos. rewrite Hcb', Hcb. reflexivity. }
  split.
  { rewrite log_hide, calls_app, calls_hide_effects, app_nil_r. reflexivity. }
  split; [congruence|].
  split; [exact Hshown|].
  split; [apply shown_hide|].
  split; [apply held_active_hide|].
  split; [apply hide_held_stream|].
  split.
  { rewrite log_hide. unfold hide_effects. rewrite Hd.
    destruct (stream (this w)); reflexivity. }
  split; [exact Him | exact Hfm].
Qed.

(** ** Submitting *)

(** C2 (amended): on a session with a registered callback, the Submit
    action first hides the session (the dialog is dismissed and the tracks
    of the held stream are stopped) and then calls the callback, exactly
    once, with the full sequence of images. *)
Theorem submit_hides_then_calls_back (w : World) (fn : Callback) :
  callback (this w) = Some fn →
  fires w ClickPrimary = Some Submit →
  is_Some (dialog (this w) ≫= body) →
  ∃ w' stops,
    step w ClickPrimary = Some w'
    ∧ log w' = (log w ++ FxDialogHide :: stops
                      ++ [FxCallback fn (images (this w))])%list
    ∧ FxDialogHide :: stops = hide_effects w
    ∧ calls (log w') = (calls (log w) ++ [(fn, images (this w))])%list
    ∧ state w' = state (hide w)
    ∧ held_active w' = false
    ∧ shown w' = false.
Proof.
  intros Hcb Hf [e He].
  destruct (hide_frame w) as (_ & _ & Him & _ & Hcb' & _).
  assert (Hstep : step w ClickPrimary
                  = Some (emit (FxCallback fn (images (this w))) (hide w))).
  { unfold step. rewrite Hf.
    destruct (dialog (this w)) as [d|]; simpl in *; [|discriminate].
    rewrite He; simpl. unfold submit_photos. rewrite Hcb', Hcb, Him.
    reflexivity. }
  assert (Hd : ∃ stops, hide_effects w = FxDialogHide :: stops).
  { unfold hide_effects. destruct (dialog (this w)); [eauto | discriminate]. }
  destruct Hd as [stops Hd].
  exists (emit (FxCallback fn (images (this w))) (hide w)), stops.
  split; [exact Hstep|].
  split; [simpl; rewrite log_hide, Hd, <- app_assoc; reflexivity|].
  split; [symmetry; exact Hd|].
  split.
  { simpl. rewrite calls_app, log_hide, calls_app, calls_hide_effects,
      app_nil_r. reflexivity. }
  split; [reflexivity|].
  split; [apply held_active_hide | apply shown_hide].
Qed.

(** ** A failed request *)

Lemma lookup_new_request (w : World) m :
  (requests w ++ [pending m])%list !! length (requests w) = Some (pending m).
Proof. apply list_lookup_middle. reflexivity. Qed.

Lemma settle_new_request (w : World) m r :
  <[length (requests w) := r]> (requests w ++ [pending m])%list
  = (requests w ++ [r])%list.
Proof.
  rewrite insert_app_r_alt by reflexivity.
  rewrite Nat.sub_diag. reflexivity.
Qed.

(** A rejection runs [show_catch] and nothing else: the session and the
    streams stay as they are. *)
Lemma step_Deny w p err w' :
  step w (Deny p err) = Some w' →
  this w' = this w ∧ streams w' = streams w
  ∧ log w' = (log w
              ++ (if truthy (get (options (this w)) "error")
                  then [FxAlert ERR_MESSAGE (Some 3%Z)] else [])
              ++ [FxUncaught err])%list
  ∧ requests w' = <[p := rejected err]> (requests w).
Proof.
  unfold step. destruct (requests w !! p) as [[m| |]|]; try discriminate.
  intros [= <-]. unfold show_catch; simpl.
  destruct (truthy _); simpl; rewrite <- ?app_assoc; repeat split.
Qed.

Lemma show_then_Deny w err :
  ∃ w', step (show w).1 (Deny (length (requests w)) err) = Some w'
    ∧ this w' = this w ∧ streams w' = streams w
    ∧ requests w' = (requests w ++ [rejected err])%list
    ∧ log w' = (log (show w).1
                ++ (if truthy (get (options (this w)) "error")
                    then [FxAlert ERR_MESSAGE (Some 3%Z)] else [])
                ++ [FxUncaught err])%list.
Proof.
  unfold show, render; simpl. rewrite lookup_new_request.
  eexists. split; [reflexivity|]. unfold show_catch; simpl.
  destruct (truthy _); simpl;
    rewrite settle_new_request, <- ?app_assoc; repeat split.
Qed.

Lemma idle_state w w' :
  this w' = this w → streams w' = streams w → idle w' = idle w.
Proof.
  intros Ht Hs. unfold idle, held_active, shown. rewrite Ht, Hs. reflexivity.
Qed.

(** C3 (amended): when the request made by [show] fails, the alert is
    raised exactly once if the error option is truthy and not at all
    otherwise; the error is then thrown again inside the promise chain
    that [show] built and dropped: [show] has returned [undefined], so its
    caller holds nothing to receive the error from, and the error ends
    uncaught.  The session and the streams are as they were before the
    call, so a session that was idle is idle. *)
Theorem show_failure_alerts_then_rethrows_uncaught (w : World) (err : string) :
  let alert := if truthy (get (options (this w)) "error")
               then [FxAlert ERR_MESSAGE (Some 3%Z)] else [] in
  (show w).2 = VUndefined
  ∧ ¬ reaches_caller (show w).2
  ∧ ∃ w', step (show w).1 (Deny (length (requests w)) err) = Some w'
      ∧ log w' = (log (show w).1 ++ alert ++ [FxUncaught err])%list
      ∧ alerts (log w') = (alerts (log w) ++ alerts alert)%list
      ∧ length (alerts alert)
        = (if truthy (get (options (this w)) "error") then 1 else 0)
      ∧ this w' = this w
      ∧ streams w' = streams w
      ∧ idle w' = idle w.
Proof.
  intros alert.
  split; [reflexivity|].
  split; [intros [p Hp]; discriminate Hp|].
  destruct (show_then_Deny w err) as (w' & Hstep & Ht & Hs & _ & Hl).
  exists w'. split; [exact Hstep|].
  split; [exact Hl|].
  split.
  { rewrite Hl. unfold show, render; simpl.
    rewrite !alerts_app; simpl. rewrite !app_nil_r. reflexivity. }
  split; [subst alert; destruct (truthy _); reflexivity|].
  split; [exact Ht|].
  split; [exact Hs|].
  apply idle_state; assumption.
Qed.

(** C6: a request that fails leaves [images] and [facing_mode] as they were
    before [show] was called, and so does the rejection of any request at
    any time. *)
Theorem failure_keeps_images_and_facing_mode (w : World) (err : string) :
  (∃ w', run w [CallShow; Deny (length (requests w)) err] = Some w'
     ∧ images (this w') = images (this w)
     ∧ facing_mode (this w') = facing_mode (this w))
  ∧ (∀ p w', step w (Deny p err) = Some w' →
       images (this w') = images (this w)
       ∧ facing_mode (this w') = facing_mode (this w)).
Proof.
  split.
  - destruct (show_then_Deny w err) as (w' & Hstep & Ht & _).
    exists w'. rewrite Ht. split; [|split; reflexivity].
    change (step (show w).1 (Deny (length (requests w)) err)
              ≫= (λ w2, Some w2) = Some w').
    rewrite Hstep. reflexivity.
  - intros p w' Hstep. apply step_Deny in Hstep as (Ht & _).
    rewrite Ht. split; reflexivity.
Qed.

(** ** Counting captures *)

Lemma length_pop (l : list string) :
  length (pop l) + match l with [] => 0 | _ :: _ => 1 end = length l.
Proof.
  unfold pop. induction l as [|x [|y l] IH]; simpl in *; [reflexivity..|].
  rewrite <- IH. reflexivity.
Qed.

Lemma images_hide w : images (this (hide w)) = images (this w).
Proof. apply hide_frame. Qed.

(** Only two handlers touch [images]: "Take Photo" pushes the frame it
    captured, the retake handler pops. *)
Lemma images_run_handler h v w :
  images (this (run_handler h v w))
  = match h with
    | TakePhoto => push (get_data_uri v) (images (this w))
    | Retake => pop (images (this w))
    | _ => images (this w)
    end.
Proof.
  destruct h; simpl; try reflexivity.
  - unfold submit_photos.
    destruct (callback (this (hide w))); simpl; apply images_hide.
  - unfold switch_camera, show, render; simpl. rewrite images_hide.
    reflexivity.
Qed.

Lemma fires_not_click w ev :
  match ev with
  | ClickPrimary | ClickSecondary | ClickCustom _ => True
  | _ => fires w ev = None
  end.
Proof.
  destruct ev; trivial; unfold fires; destruct (dialog (this w)); reflexivity.
Qed.

Lemma step_click w ev w' :
  match ev with
  | ClickPrimary | ClickSecondary | ClickCustom _ => True
  | _ => False
  end →
  step w ev = Some w' →
  ∃ d e h, dialog (this w) = Some d ∧ body d = Some e ∧ fires w ev = Some h
    ∧ w' = run_handler h (video e) w.
Proof.
  intros Hev Hstep.
  assert (H : (d ← dialog (this w); e ← body d; h ← fires w ev;
               Some (run_handler h (video e) w)) = Some w').
  { destruct ev; try contradiction; exact Hstep. }
  destruct (dialog (this w)) as [d|] eqn:Hd; simpl in H; [|discriminate].
  destruct (body d) as [e|] eqn:He; simpl in H; [|discriminate].
  destruct (fires w ev) as [h|] eqn:Hf; simpl in H; [|discriminate].
  injection H as <-. eauto 10.
Qed.

(** No call, no answer of the browser and no click on the close button
    touches [images]. *)
Lemma step_images_other w ev w' :
  match ev with
  | ClickPrimary | ClickSecondary | ClickCustom _ => False
  | _ => True
  end →
  step w ev = Some w' →
  images (this w') = images (this w).
Proof.
  intros Hev Hstep. destruct ev; try contradiction; simpl in Hstep.
  - injection Hstep as <-. reflexivity.
  - injection Hstep as <-. apply images_hide.
  - injection Hstep as <-. reflexivity.
  - destruct (requests w !! p) as [[m| |]|]; try discriminate.
    injection Hstep as <-. reflexivity.
  - apply step_Deny in Hstep as (-> & _). reflexivity.
  - destruct (dialog (this w)) as [d|]; simpl in Hstep; [|discriminate].
    destruct (body d) as [e|]; simpl in Hstep; [|discriminate].
    destruct (playing (video e)); [|discriminate].
    injection Hstep as <-. reflexivity.
  - destruct (dialog (this w)) as [d|]; simpl in Hstep; [|discriminate].
    destruct (display d); [|discriminate].
    injection Hstep as <-. apply images_hide.
Qed.

Lemma step_images w ev w' :
  step w ev = Some w' →
  length (images (this w')) + undone w ev
  = length (images (this w)) + captured w ev.
Proof.
  intros Hstep. unfold undone, captured.
  assert (Hclick : {match ev with
                    | ClickPrimary | ClickSecondary | ClickCustom _ => True
                    | _ => False
                    end}
                 + {match ev with
                    | ClickPrimary | ClickSecondary | ClickCustom _ => False
                    | _ => True
                    end}).
  { destruct ev; auto. }
  destruct Hclick as [Hc|Hc].
  - destruct (step_click _ _ _ Hc Hstep) as (d & e & h & _ & _ & Hf & ->).
    rewrite Hf, images_run_handler.
    destruct h; try lia.
    + unfold push. rewrite length_app; simpl. lia.
    + pose proof (length_pop (images (this w))) as Hp.
      destruct (images (this w)); simpl in *; lia.
  - rewrite (step_images_other _ _ _ Hc Hstep).
    pose proof (fires_not_click w ev) as Hf.
    destruct ev; try contradiction; rewrite Hf; lia.
Qed.

Lemma run_images evs : ∀ w w',
  run w evs = Some w' →
  length (images (this w')) + tally undone w evs
  = length (images (this w)) + tally captured w evs.
Proof.
  induction evs as [|ev evs IH]; intros w w' Hrun; simpl in *.
  - injection Hrun as <-. reflexivity.
  - destruct (step w ev) as [w1|] eqn:Hstep; simpl in Hrun; [|discriminate].
    pose proof (step_images _ _ _ Hstep).
    pose proof (IH _ _ Hrun). lia.
Qed.

(** ** The transitions between previewing and captured *)

(** In [Previewing] the primary button takes a photo: one image is
    appended and the session is [Captured]. *)
Lemma take_photo_from_Previewing w :
  Previewing w →
  ∃ e, dialog (this w) ≫= body = Some e
    ∧ fires w ClickPrimary = Some TakePhoto
    ∧ step w ClickPrimary = Some (take_photo (video e) w)
    ∧ images (this (take_photo (video e) w))
      = (images (this w) ++ [get_data_uri (video e)])%list
    ∧ Captured (take_photo (video e) w).
Proof.
  intros (d & e & v & Hd & He & Hdisp & Hp & Hc & Hs & Hpv).
  destruct w as [[o fm im st dg cb] ss rq lg]; simpl in *; subst dg.
  destruct d as [ti an di pb sb ca bo]; simpl in *; subst.
  exists e. repeat split.
  exists (set_primary_action (__ "Submit") Submit
            (custom_find "btn-multiple" btn_show
               (with_secondary btn_show
                  (set_secondary_action_label (__ "Retake")
                     (with_body (fmap (fc_preview_set true))
                        (with_body (fmap (fc_stream_set false))
                           (with_body
                              (fmap (fc_preview_attr_src
                                       (get_data_uri (video e))))
                              {| title := ti; animate := an; display := true;
                                 primary_btn :=
                                   {| label := __ "Take Photo";
                                      visible := true;
                                      click := Some TakePhoto |};
                                 secondary_btn := sb;
                                 custom_actions := multiple_btn v;
                                 body := Some e |}))))))).
  eexists. repeat split.
Qed.

(** In [Captured] the "Take Multiple" button keeps every image and only
    brings the session back to [Previewing]. *)
Lemma take_multiple_from_Captured w :
  Captured w →
  fires w (ClickCustom 0) = Some TakeMultiple
  ∧ step w (ClickCustom 0) = Some (take_multiple w)
  ∧ images (this (take_multiple w)) = images (this w)
  ∧ facing_mode (this (take_multiple w)) = facing_mode (this w)
  ∧ stream (this (take_multiple w)) = stream (this w)
  ∧ callback (this (take_multiple w)) = callback (this w)
  ∧ streams (take_multiple w) = streams w
  ∧ requests (take_multiple w) = requests w
  ∧ log (take_multiple w) = log w
  ∧ Previewing (take_multiple w).
Proof.
  intros (d & e & Hd & He & Hdisp & Hp & Hl & Hv & Hc & Hs & Hpv).
  destruct w as [[o fm im st dg cb] ss rq lg]; simpl in *; subst dg.
  destruct d as [ti an di pb sb ca bo]; simpl in *; subst.
  repeat split.
  do 3 eexists. repeat split.
Qed.

(** The worlds of the scenarios are computed; the options of the session
    play no part and are kept abstract. *)
Ltac abstract_options :=
  unfold boot, constructor, set_options;
  match goal with
  | |- context [?o ∪ OPTIONS] => generalize (o ∪ OPTIONS); intros ?
  end.

Ltac evaluate_run :=
  match goal with
  | |- ?r = Some _ => vm_compute; reflexivity
  end.

Lemma two_photos_scenario opts fn tracks wd1 ht1 f1 wd2 ht2 f2 :
  ∃ w', run (boot opts)
          [CallSubmit fn; CallShow; Grant 0 tracks;
           Playback wd1 ht1 f1; ClickPrimary; ClickCustom 0;
           Playback wd2 ht2 f2; ClickPrimary; ClickPrimary] = Some w'
    ∧ images (this w') = [shot 0 wd1 ht1 f1; shot 0 wd2 ht2 f2]
    ∧ calls (log w') = [(fn, [shot 0 wd1 ht1 f1; shot 0 wd2 ht2 f2])].
Proof.
  abstract_options.
  eexists. split; [evaluate_run|].
  split; vm_compute; reflexivity.
Qed.

(** X20: counted by the closures that run, [images] balances: along
    every run of events its length is the number of runs of the closure
    bound under "Take Photo" less the number of runs of the closure that
    pops (lines 112-119) that found an image, whatever the secondary
    button read when it was clicked; in Previewing the primary button
    appends exactly one image and leads to Captured; in Captured "Take
    Multiple" keeps every image and leads back to Previewing; and show,
    take photo, take multiple, take photo, submit hands the callback the
    two captures in the order taken. *)
Theorem images_balance_handler_runs :
  (∀ opts evs w',
     run (boot opts) evs = Some w' →
     length (images (this w')) + tally undone (boot opts) evs
     = tally captured (boot opts) evs)
  ∧ (∀ w evs w',
       run w evs = Some w' →
       length (images (this w')) + tally undone w evs
       = length (images (this w)) + tally captured w evs)
  ∧ (∀ w, Previewing w →
       ∃ e w', dialog (this w) ≫= body = Some e
         ∧ step w ClickPrimary = Some w'
         ∧ images (this w')
           = (images (this w) ++ [get_data_uri (video e)])%list
         ∧ Captured w')
  ∧ (∀ w, Captured w →
       ∃ w', step w (ClickCustom 0) = Some w'
         ∧ images (this w') = images (this w)
         ∧ Previewing w')
  ∧ (∀ opts fn tracks wd1 ht1 f1 wd2 ht2 f2,
       ∃ w', run (boot opts)
               [CallSubmit fn; CallShow; Grant 0 tracks;
                Playback wd1 ht1 f1; ClickPrimary; ClickCustom 0;
                Playback wd2 ht2 f2; ClickPrimary; ClickPrimary] = Some w'
         ∧ calls (log w')
           = [(fn, [shot 0 wd1 ht1 f1; shot 0 wd2 ht2 f2])]).
Proof.
  split; [|split; [|split; [|split]]].
  - intros opts evs w' Hrun. apply run_images in Hrun. exact Hrun.
  - intros w evs w'. apply run_images.
  - intros w Hw.
    destruct (take_photo_from_Previewing w Hw) as (e & He & _ & Hs & Hi & Hc).
    eauto 10.
  - intros w Hw.
    destruct (take_multiple_from_Captured w Hw)
      as (_ & Hs & Hi & _ & _ & _ & _ & _ & _ & Hp).
    eauto.
  - intros opts fn tracks wd1 ht1 f1 wd2 ht2 f2.
    destruct (two_photos_scenario opts fn tracks wd1 ht1 f1 wd2 ht2 f2)
      as (w' & Hrun & _ & Hc).
    eauto.
Qed.

(** ** The secondary button *)

(** C5, at the failing input: a new session is shown, a photo is taken
    and kept with "Take Multiple", and the camera is switched with the
    button that then reads "Switch Camera" and does switch.  On the dialog
    of the new stream the session is Previewing with the photo in
    [images]; no button that reads "Retake" has been clicked.  The
    secondary button reads "Switch Camera" again but is bound to the
    closure that pops: the click removes the photo and switches nothing.
    One capture, no retake, and [images] is empty. *)
Theorem switch_camera_click_drops_kept_photo opts tracks wd ht f :
  ∃ w0 d0 w d w',
    run (boot opts)
      [CallShow; Grant 0 tracks; Playback wd ht f; ClickPrimary;
       ClickCustom 0] = Some w0
    ∧ Previewing w0
    ∧ images (this w0) = [shot 0 wd ht f]
    ∧ dialog (this w0) = Some d0
    ∧ secondary_btn d0 = {| label := __ "Switch Camera"; visible := true;
                            click := Some SwitchCamera |}
    ∧ run w0 [ClickSecondary; Grant 1 tracks] = Some w
    ∧ tally captured (boot opts)
        [CallShow; Grant 0 tracks; Playback wd ht f; ClickPrimary;
         ClickCustom 0; ClickSecondary; Grant 1 tracks; ClickSecondary] = 1
    ∧ Previewing w
    ∧ images (this w) = [shot 0 wd ht f]
    ∧ facing_mode (this w) = "user"
    ∧ dialog (this w) = Some d
    ∧ secondary_btn d = {| label := __ "Switch Camera"; visible := true;
                           click := Some Retake |}
    ∧ step w ClickSecondary = Some w'
    ∧ images (this w') = []
    ∧ facing_mode (this w') = "user"
    ∧ requests w' = requests w
    ∧ streams w' = streams w
    ∧ Previewing w'.
Proof.
  abstract_options.
  do 5 eexists. split; [evaluate_run|].
  split; [do 3 eexists; repeat split; vm_compute; reflexivity|].
  do 3 (split; [vm_compute; reflexivity|]).
  split; [evaluate_run|].
  split; [vm_compute; reflexivity|].
  split; [do 3 eexists; repeat split; vm_compute; reflexivity|].
  do 4 (split; [vm_compute; reflexivity|]).
  split; [evaluate_run|].
  do 4 (split; [vm_compute; reflexivity|]).
  do 3 eexists. repeat split; vm_compute; reflexivity.
Qed.

(** C1, at the failing input: a new session is shown, a photo is taken
    and retaken, and a second photo is taken.  The session is Captured and
    its secondary button reads "Retake", but the handler bound to it is the
    one that switches the camera: the click removes no image, flips the
    facing mode, hides the dialog and asks for a new stream. *)
Theorem retake_after_second_capture_switches_camera
    opts tracks wd ht f1 f2 :
  ∃ w w',
    run (boot opts)
      [CallShow; Grant 0 tracks; Playback wd ht f1; ClickPrimary;
       ClickSecondary; Playback wd ht f2; ClickPrimary] = Some w
    ∧ Captured w
    ∧ images (this w) = [shot 0 wd ht f2]
    ∧ facing_mode (this w) = "environment"
    ∧ fires w ClickSecondary = Some SwitchCamera
    ∧ step w ClickSecondary = Some w'
    ∧ images (this w') = [shot 0 wd ht f2]
    ∧ facing_mode (this w') = "user"
    ∧ requests w' = [resolved 0; pending "user"]
    ∧ shown w' = false
    ∧ ¬ Previewing w'.
Proof.
  abstract_options.
  do 2 eexists. split; [evaluate_run|].
  split; [do 2 eexists; repeat split|].
  do 3 (split; [reflexivity|]).
  split; [evaluate_run|].
  do 4 (split; [reflexivity|]).
  intros (d & e & v & Hd & _ & Hdisp & _).
  injection Hd as <-. discriminate Hdisp.
Qed.

(** C4, at the failing input: on the dialog of a session that has just
    been shown, the secondary button reads "Switch Camera" but is bound to
    the retake handler, so the click leaves the facing mode, the stream and
    the requests as they are. *)
Theorem switch_camera_on_new_dialog_runs_retake opts tracks :
  ∃ w w' d,
    run (boot opts) [CallShow; Grant 0 tracks] = Some w
    ∧ Previewing w
    ∧ dialog (this w) = Some d
    ∧ secondary_btn d = {| label := __ "Switch Camera"; visible := true;
                           click := Some Retake |}
    ∧ fires w ClickSecondary = Some Retake
    ∧ step w ClickSecondary = Some w'
    ∧ facing_mode (this w) = "environment"
    ∧ facing_mode (this w') = "environment"
    ∧ requests w' = requests w
    ∧ streams w' = streams w
    ∧ log w' = log w.
Proof.
  abstract_options.
  do 3 eexists. split; [evaluate_run|].
  split; [do 3 eexists; repeat split|].
  do 3 (split; [reflexivity|]).
  split; [evaluate_run|].
  repeat split.
Qed.

(** ** The handlers behind the secondary button *)

(** X1: whenever the retake handler is the one bound to the secondary
    button of a Captured session, the click removes the last image and
    nothing else of [images], keeps the facing mode and the streams,
    brings the session back to Previewing and leaves the button bound to
    the handler that switches the camera. *)
Theorem retake_removes_last_capture w :
  Captured w →
  fires w ClickSecondary = Some Retake →
  ∃ w', step w ClickSecondary = Some w'
    ∧ images (this w') = pop (images (this w))
    ∧ length (images (this w')) = length (images (this w)) - 1
    ∧ facing_mode (this w') = facing_mode (this w)
    ∧ streams w' = streams w
    ∧ Previewing w'
    ∧ fires w' ClickSecondary = Some SwitchCamera.
Proof.
  intros (d & e & Hd & He & Hdisp & Hp & Hl & Hv & Hc & Hs & Hpv) Hf.
  destruct w as [[o fm im st dg cb] ss rq lg]; simpl in *; subst dg.
  destruct d as [ti an di pb [sl sv sc] ca bo]; simpl in *; subst.
  change (sc = Some Retake) in Hf. subst sc.
  exists (retake {| this := {| options := o; facing_mode := fm; images := im;
                              stream := st;
                              dialog := Some {| title := ti; animate := an;
                                display := true;
                                primary_btn := {| label := __ "Submit";
                                                  visible := true;
                                                  click := Some Submit |};
                                secondary_btn := {| label := __ "Retake";
                                                    visible := true;
                                                    click := Some Retake |};
                                custom_actions := multiple_btn true;
                                body := Some e |};
                              callback := cb |};
                    streams := ss; requests := rq; log := lg |}).
  split; [reflexivity|].
  split; [reflexivity|].
  split.
  { simpl. pose proof (length_pop im). destruct im; simpl in *; lia. }
  do 2 (split; [reflexivity|]).
  split; [do 3 eexists; repeat split|reflexivity].
Qed.

Lemma other_facing_mode_involutive m :
  m = "environment" ∨ m = "user" →
  other_facing_mode m ≠ m
  ∧ other_facing_mode (other_facing_mode m) = m.
Proof. intros [-> | ->]; split; try reflexivity; discriminate. Qed.

(** X2: whenever the handler that switches the camera is the one bound to
    the secondary button of a Previewing session, the click flips the
    facing mode, raises the notice, hides the dialog and stops the tracks
    of the held stream, and only then asks for a stream with the new
    facing mode; if no stream but the held one was active, none is active
    after the click and at most one once the new request is granted. *)
Theorem switch_camera_releases_then_requests w :
  Previewing w →
  fires w ClickSecondary = Some SwitchCamera →
  ∃ w', step w ClickSecondary = Some w'
    ∧ facing_mode (this w') = other_facing_mode (facing_mode (this w))
    ∧ images (this w') = images (this w)
    ∧ held_active w' = false
    ∧ shown w' = false
    ∧ requests w' = (requests w
                     ++ [pending (other_facing_mode (facing_mode (this w)))])%list
    ∧ log w' = (log w ++ FxAlert (__ "Switching Camera") None
                      :: hide_effects w
                      ++ [FxGetUserMedia
                            (other_facing_mode (facing_mode (this w)))])%list
    ∧ (only_held_active w →
       active_streams w' = 0
       ∧ ∀ tracks, ∃ w'',
           step w' (Grant (length (requests w)) tracks) = Some w''
           ∧ (active_streams w'' ≤ 1)%nat
           ∧ Previewing w''
           ∧ stream (this w'') = Some (length (streams w))).
Proof.
  intros (d & e & v & Hd & He & Hdisp & Hp & Hc & Hs & Hpv) Hf.
  set (w0 := emit (FxAlert (__ "Switching Camera") None)
               (with_this (λ c, set_facing_mode
                                  (other_facing_mode (facing_mode c)) c) w)).
  assert (Hsw : switch_camera w = (show (hide w0)).1) by reflexivity.
  exists (switch_camera w).
  split.
  { unfold step. rewrite Hf, Hd; simpl. rewrite He. reflexivity. }
  destruct (hide_frame w0) as (_ & Hfm & Him & Hst & _ & Hrq).
  split; [rewrite Hsw; unfold show, render; simpl; rewrite Hfm; reflexivity|].
  split; [rewrite Hsw; unfold show, render; simpl; rewrite Him; reflexivity|].
  split.
  { rewrite Hsw. pose proof (held_active_hide w0) as H.
    unfold held_active in *. exact H. }
  split.
  { rewrite Hsw. pose proof (shown_hide w0) as H. exact H. }
  split.
  { rewrite Hsw. unfold show, render; simpl. rewrite Hrq, Hfm. reflexivity. }
  split.
  { rewrite Hsw. unfold show, render; simpl. rewrite log_hide, Hfm. simpl.
    rewrite <- !app_assoc. reflexivity. }
  intros Hone.
  assert (H0 : active_streams (switch_camera w) = 0).
  { rewrite Hsw. apply (active_streams_hide w0). exact Hone. }
  split; [exact H0|].
  intros tracks.
  assert (Hreq : requests (switch_camera w) !! length (requests w)
                 = Some (pending (other_facing_mode (facing_mode (this w))))).
  { rewrite Hsw. unfold show, render; simpl. rewrite Hrq, Hfm.
    apply list_lookup_middle. reflexivity. }
  unfold step. rewrite Hreq.
  eexists. split; [reflexivity|].
  split.
  { unfold active_streams in *.
    cbn [streams show_then Dialog_show emit on_dialog with_this render_then
         set_take_photo_action with_streams with_requests].
    rewrite List.filter_app, length_app, H0.
    simpl. destruct (active _); simpl; lia. }
  split.
  { do 3 eexists. repeat split. }
  change (Some (length (streams (switch_camera w)))
          = Some (length (streams w))).
  f_equal. rewrite Hsw.
  change (length (streams (hide w0)) = length (streams w)).
  rewrite streams_hide. destruct (stream (this w0)); rewrite ?length_alter;
    reflexivity.
Qed.

(** ** The two facing modes *)

Lemma facing_mode_hide w : facing_mode (this (hide w)) = facing_mode (this w).
Proof. apply hide_frame. Qed.

(** Only the handler that switches the camera touches [facing_mode]. *)
Lemma facing_mode_run_handler h v w :
  facing_mode (this (run_handler h v w))
  = match h with
    | SwitchCamera => other_facing_mode (facing_mode (this w))
    | _ => facing_mode (this w)
    end.
Proof.
  destruct h; simpl; try reflexivity.
  - unfold submit_photos.
    destruct (callback (this (hide w))); simpl; apply facing_mode_hide.
  - unfold switch_camera, show, render; simpl. rewrite facing_mode_hide.
    reflexivity.
Qed.

Lemma step_facing_mode w ev w' :
  step w ev = Some w' →
  facing_mode (this w') = facing_mode (this w)
  ∨ facing_mode (this w') = other_facing_mode (facing_mode (this w)).
Proof.
  intros Hstep.
  assert (Hclick : match ev with
                   | ClickPrimary | ClickSecondary | ClickCustom _ => True
                   | _ => False
                   end →
                   facing_mode (this w') = facing_mode (this w)
                   ∨ facing_mode (this w')
                     = other_facing_mode (facing_mode (this w))).
  { intros Hc.
    destruct (step_click _ _ _ Hc Hstep) as (d & e & h & _ & _ & _ & ->).
    rewrite facing_mode_run_handler. destruct h; auto. }
  destruct ev; try (apply Hclick; exact I); clear Hclick; simpl in Hstep.
  - injection Hstep as <-. left. reflexivity.
  - injection Hstep as <-. left. apply facing_mode_hide.
  - injection Hstep as <-. left. reflexivity.
  - destruct (requests w !! p) as [[m| |]|]; try discriminate.
    injection Hstep as <-. left. reflexivity.
  - apply step_Deny in Hstep as (-> & _). left. reflexivity.
  - destruct (dialog (this w)) as [d|]; simpl in Hstep; [|discriminate].
    destruct (body d) as [e|]; simpl in Hstep; [|discriminate].
    destruct (playing (video e)); [|discriminate].
    injection Hstep as <-. left. reflexivity.
  - destruct (dialog (this w)) as [d|]; simpl in Hstep; [|discriminate].
    destruct (display d); [|discriminate].
    injection Hstep as <-. left. apply facing_mode_hide.
Qed.

Lemma run_facing_mode evs : ∀ w w',
  run w evs = Some w' →
  facing_mode (this w) = "environment" ∨ facing_mode (this w) = "user" →
  facing_mode (this w') = "environment" ∨ facing_mode (this w') = "user".
Proof.
  induction evs as [|ev evs IH]; intros w w' Hrun Hw; simpl in Hrun.
  - injection Hrun as <-. exact Hw.
  - destruct (step w ev) as [w1|] eqn:Hstep; simpl in Hrun; [|discriminate].
    apply (IH _ _ Hrun).
    destruct (step_facing_mode _ _ _ Hstep) as [-> | ->]; [exact Hw|].
    destruct Hw as [-> | ->]; [right | left]; reflexivity.
Qed.

(** X3: whatever happens to a new session, its facing mode is
    "environment" or "user", and on these the toggle of the handler that
    switches the camera yields the other value and, applied twice, the
    value it started from. *)
Theorem facing_mode_toggles_between_two opts evs w :
  run (boot opts) evs = Some w →
  (facing_mode (this w) = "environment" ∨ facing_mode (this w) = "user")
  ∧ other_facing_mode (facing_mode (this w)) ≠ facing_mode (this w)
  ∧ other_facing_mode (other_facing_mode (facing_mode (this w)))
    = facing_mode (this w).
Proof.
  intros Hrun.
  assert (H : facing_mode (this w) = "environment"
              ∨ facing_mode (this w) = "user").
  { apply (run_facing_mode _ _ _ Hrun). left. reflexivity. }
  split; [exact H|]. apply other_facing_mode_involutive. exact H.
Qed.

(** ** Granting a request *)

Lemma step_Grant w p tracks m :
  requests w !! p = Some (pending m) →
  step w (Grant p tracks)
  = Some (show_then
            (render_then (length (streams w))
               (with_streams
                  (λ l, (l ++ [{| facingMode := m;
                                  getTracks := replicate tracks live |}])%list)
                  (with_requests (<[p := resolved (length (streams w))]>) w)))).
Proof. intros H. unfold step. rewrite H. reflexivity. Qed.

(** X14: when the browser grants a pending request, the session holds the
    new stream, which has the facing mode asked for when the request was
    made and all its tracks live, and a new dialog is on display in
    Previewing: titled and animated as the options say, with the stream
    playing in its video, "Take Multiple" hidden, and the button that
    reads "Switch Camera" bound to the retake handler.  Images, facing
    mode, callback and options are untouched.  A request that is not
    pending can be neither granted nor denied. *)
Theorem grant_renders_preview (w : World) (p tracks : nat) :
  (∀ m, requests w !! p = Some (pending m) →
     ∃ w' d e,
       step w (Grant p tracks) = Some w'
       ∧ Previewing w'
       ∧ dialog (this w') = Some d ∧ body d = Some e
       ∧ title d = get (options (this w)) "title"
       ∧ animate d = get (options (this w)) "animate"
       ∧ secondary_btn d = {| label := __ "Switch Camera"; visible := true;
                              click := Some Retake |}
       ∧ custom_actions d = multiple_btn false
       ∧ video e = {| srcObject := Some (length (streams w)); playing := true;
                      videoWidth := 0; videoHeight := 0; frame := 0 |}
       ∧ stream (this w') = Some (length (streams w))
       ∧ streams w'
         = (streams w ++ [{| facingMode := m;
                             getTracks := replicate tracks live |}])%list
       ∧ requests w' = <[p := resolved (length (streams w))]> (requests w)
       ∧ images (this w') = images (this w)
       ∧ facing_mode (this w') = facing_mode (this w)
       ∧ callback (this w') = callback (this w)
       ∧ options (this w') = options (this w)
       ∧ log w' = (log w ++ [FxDialogShow])%list)
  ∧ ((∀ m, requests w !! p ≠ Some (pending m)) →
     ∀ err, step w (Grant p tracks) = None ∧ step w (Deny p err) = None).
Proof.
  split.
  - intros m Hp. rewrite (step_Grant _ _ _ _ Hp).
    do 3 eexists. split; [reflexivity|].
    split; [do 3 eexists; repeat split|].
    repeat split.
  - intros Hp err. unfold step.
    destruct (requests w !! p) as [[m| |]|]; try (split; reflexivity).
    destruct (Hp m). reflexivity.
Qed.

(** ** Streams that [hide] does not reach *)

Lemma active_streams_pos (l : list MediaStream) i m :
  l !! i = Some m → active m = true →
  (1 ≤ length (List.filter active l))%nat.
Proof.
  intros Hi Ha.
  assert (Hin : In m (List.filter active l)).
  { apply filter_In. split; [|exact Ha].
    apply list_elem_of_In. eapply list_elem_of_lookup_2. exact Hi. }
  destruct (List.filter active l); [destruct Hin | simpl; lia].
Qed.

(** X15: [hide] stops the tracks of the stream in [this.stream] and of no
    other.  So when a request is granted while the session still holds an
    active stream (a second [show] on a session that is previewing), the
    new stream takes its place in [this.stream], the old one stays active,
    and no later [hide] stops it. *)
Theorem grant_over_active_stream_leaks (w : World) (p tracks s0 : nat) m m0 :
  stream (this w) = Some s0 →
  streams w !! s0 = Some m0 →
  active m0 = true →
  requests w !! p = Some (pending m) →
  (∀ i, i ≠ s0 → streams (hide w) !! i = streams w !! i)
  ∧ ∃ w', step w (Grant p tracks) = Some w'
      ∧ stream (this w') = Some (length (streams w))
      ∧ streams w' !! s0 = Some m0
      ∧ streams (hide w') !! s0 = Some m0
      ∧ streams (hide (hide w')) !! s0 = Some m0
      ∧ held_active (hide w') = false
      ∧ (1 ≤ active_streams (hide w'))%nat.
Proof.
  intros Hs Hm0 Ha Hp.
  assert (Hlt : (s0 < length (streams w))%nat)
    by (eapply lookup_lt_Some; eauto).
  split.
  { intros i Hi. apply hide_other_stream. congruence. }
  rewrite (step_Grant _ _ _ _ Hp). eexists. split; [reflexivity|].
  set (w' := show_then _).
  assert (Hst : stream (this w') = Some (length (streams w))) by reflexivity.
  assert (Hl : streams w' !! s0 = Some m0).
  { change (streams w') with
      (streams w ++ [{| facingMode := m;
                        getTracks := replicate tracks live |}])%list.
    rewrite lookup_app_l by exact Hlt. exact Hm0. }
  assert (Hh : streams (hide w') !! s0 = Some m0).
  { rewrite hide_other_stream; [exact Hl|]. rewrite Hst. intros [= H]. lia. }
  split; [exact Hst|]. split; [exact Hl|]. split; [exact Hh|].
  split.
  { rewrite hide_other_stream; [exact Hh|].
    destruct (hide_frame w') as (_ & _ & _ & -> & _).
    rewrite Hst. intros [= H]. lia. }
  split; [apply held_active_hide|].
  unfold active_streams. eapply active_streams_pos; eauto.
Qed.

(** ** The first click on the secondary button of a new dialog *)

(** X16: after every grant (the first [show], a camera switch, a new
    [show] after Submit) the first click on the secondary button of the
    new dialog runs the retake handler: it removes the last image captured
    so far, if there is one, and switches nothing; only then is the button
    bound to the handler that switches the camera. *)
Theorem first_secondary_click_after_grant_pops (w w1 : World) (p tracks : nat) :
  step w (Grant p tracks) = Some w1 →
  ∃ w2, fires w1 ClickSecondary = Some Retake
    ∧ step w1 ClickSecondary = Some w2
    ∧ images (this w2) = pop (images (this w))
    ∧ facing_mode (this w2) = facing_mode (this w)
    ∧ streams w2 = streams w1
    ∧ requests w2 = requests w1
    ∧ log w2 = log w1
    ∧ Previewing w2
    ∧ fires w2 ClickSecondary = Some SwitchCamera.
Proof.
  intros Hstep.
  destruct (requests w !! p) as [[m| |]|] eqn:Hp;
    try (unfold step in Hstep; rewrite Hp in Hstep; discriminate).
  rewrite (step_Grant _ _ _ _ Hp) in Hstep. injection Hstep as <-.
  clear Hp. destruct w as [[o fm im st dg cb] ss rq lg].
  eexists. split; [vm_compute; reflexivity|].
  do 6 (split; [vm_compute; reflexivity|]).
  split; [|vm_compute; reflexivity].
  do 3 eexists. do 6 (split; [vm_compute; reflexivity|]).
  vm_compute; reflexivity.
Qed.

(** ** What the callback is handed *)






(** ** Images outlive the dialog *)

Lemma step_images_kept w ev w' :
  step w ev = Some w' →
  undone w ev = 0 →
  ∃ more, images (this w') = (images (this w) ++ more)%list
    ∧ length more = captured w ev.
Proof.
  intros Hstep Hun. unfold undone, captured in *.
  assert (Hclick : {match ev with
                    | ClickPrimary | ClickSecondary | ClickCustom _ => True
                    | _ => False
                    end}
                 + {match ev with
                    | ClickPrimary | ClickSecondary | ClickCustom _ => False
                    | _ => True
                    end}).
  { destruct ev; auto. }
  destruct Hclick as [Hc|Hc].
  - destruct (step_click _ _ _ Hc Hstep) as (d & e & h & _ & _ & Hf & ->).
    rewrite Hf in *. rewrite images_run_handler.
    destruct h; try (exists []; rewrite app_nil_r; split; reflexivity).
    + eexists [_]. split; reflexivity.
    + destruct (images (this w)); [|discriminate].
      exists []. split; reflexivity.
  - rewrite (step_images_other _ _ _ Hc Hstep).
    pose proof (fires_not_click w ev) as Hf.
    exists []. rewrite app_nil_r. split; [reflexivity|].
    destruct ev; try contradiction; rewrite Hf; reflexivity.
Qed.

(** X18: nothing but the retake handler ever removes an image: along a
    run in which it removes none, [images] only grows, by one image for
    every photo taken.  In particular [hide], Submit, a failed request and
    a new [show] leave the images where they are, so a session that is
    shown again still holds the photos it has already submitted. *)
Theorem images_kept_until_retake evs : ∀ w w',
  run w evs = Some w' →
  tally undone w evs = 0 →
  ∃ more, images (this w') = (images (this w) ++ more)%list
    ∧ length more = tally captured w evs.
Proof.
  induction evs as [|ev evs IH]; intros w w' Hrun Hun; simpl in *.
  - injection Hrun as <-. exists []. rewrite app_nil_r. split; reflexivity.
  - destruct (step w ev) as [w1|] eqn:Hstep; simpl in Hrun; [|discriminate].
    destruct (step_images_kept _ _ _ Hstep) as (m1 & H1 & L1); [lia|].
    destruct (IH _ _ Hrun) as (m2 & H2 & L2); [lia|].
    exists (m1 ++ m2)%list. rewrite H2, H1, <- app_assoc, length_app.
    split; [reflexivity | lia].
Qed.

(** ** Hiding while a request is pending *)

(** X19: [hide] does not cancel a request: a request that is pending stays
    pending, and when the browser grants it afterwards the dialog is put
    on display and the session holds the new stream, active if it has a
    track, although [hide] was the last thing asked of the session. *)
Theorem hide_does_not_cancel_request (w : World) (p tracks : nat) m :
  requests w !! p = Some (pending m) →
  requests (hide w) !! p = Some (pending m)
  ∧ ∃ w', step (hide w) (Grant p tracks) = Some w'
      ∧ shown w' = true
      ∧ Previewing w'
      ∧ stream (this w') = Some (length (streams w))
      ∧ streams w' !! length (streams w)
        = Some {| facingMode := m; getTracks := replicate tracks live |}
      ∧ held_active w' = negb (Nat.eqb tracks 0).
Proof.
  intros Hp.
  destruct (hide_frame w) as (_ & _ & _ & _ & _ & Hrq).
  assert (Hp' : requests (hide w) !! p = Some (pending m))
    by (rewrite Hrq; exact Hp).
  assert (Hlen : length (streams (hide w)) = length (streams w)).
  { rewrite streams_hide. destruct (stream (this w)); [|reflexivity].
    apply length_alter. }
  split; [exact Hp'|].
  rewrite (step_Grant _ _ _ _ Hp'). eexists. split; [reflexivity|].
  set (w' := show_then _).
  assert (Hst : stream (this w') = Some (length (streams w)))
    by (rewrite <- Hlen; reflexivity).
  assert (Hl : streams w' !! length (streams w)
               = Some {| facingMode := m;
                         getTracks := replicate tracks live |}).
  { change (streams w') with
      (streams (hide w)
       ++ [{| facingMode := m; getTracks := replicate tracks live |}])%list.
    apply list_lookup_middle. symmetry. exact Hlen. }
  split; [reflexivity|].
  split; [do 3 eexists; repeat split|].
  split; [exact Hst|]. split; [exact Hl|].
  assert (Hheld : stream (this w') ≫= (streams w' !!.)
                  = Some {| facingMode := m;
                            getTracks := replicate tracks live |})
    by (rewrite Hst; exact Hl).
  unfold held_active. rewrite Hheld. destruct tracks; reflexivity.
Qed.

End Capture.

(** ** The model at concrete input

    The session runs with [untranslated] messages and [sample_toDataURL]. *)

Lemma submit_hides_then_calls_back_witness :
  ∃ w, run untranslated sample_toDataURL (boot untranslated None)
         [CallSubmit 7; CallShow; Grant 0 1; Playback 640 480 1;
          ClickPrimary] = Some w
    ∧ ∃ w' stops,
        step untranslated sample_toDataURL w ClickPrimary = Some w'
        ∧ log w' = (log w ++ FxDialogHide :: stops
                          ++ [FxCallback 7 (images (this w))])%list
        ∧ FxDialogHide :: stops = hide_effects w
        ∧ calls (log w') = (calls (log w) ++ [(7, images (this w))])%list
        ∧ state w' = state (hide w)
        ∧ held_active w' = false
        ∧ shown w' = false.
Proof.
  eexists. split; [vm_compute; reflexivity|].
  apply (submit_hides_then_calls_back untranslated sample_toDataURL _ 7);
    vm_compute; eauto.
Defined.

(** C2, as worded, fails: the session below has taken one photo and has
    the callback 7 registered; on Submit the dialog is hidden and the
    tracks are stopped before the callback is called, so the call is not the
    first thing that happens. *)
Lemma submit_calls_back_after_hiding :
  ∃ w w', run untranslated sample_toDataURL (boot untranslated None)
            [CallSubmit 7; CallShow; Grant 0 1; Playback 640 480 1;
             ClickPrimary] = Some w
    ∧ callback (this w) = Some 7
    ∧ Captured untranslated w
    ∧ step untranslated sample_toDataURL w ClickPrimary = Some w'
    ∧ log w' = (log w ++ [FxDialogHide; FxStopTracks 0; FxStopTracks 0;
                          FxCallback 7 ["data:image/png;base64,B"]])%list
    ∧ ¬ callback_first w w' 7.
Proof.
  do 2 eexists. split; [vm_compute; reflexivity|].
  split; [reflexivity|].
  split; [do 2 eexists; repeat split|].
  split; [vm_compute; reflexivity|].
  split; [reflexivity|].
  intros [rest H]. vm_compute in H. discriminate H.
Qed.

(** C3, as worded, fails: on a new session with [error: true] whose
    request is denied, the alert is raised once and the session is idle,
    but [show] has handed its caller [undefined], and the error ends
    uncaught. *)
Lemma show_failure_does_not_reach_caller :
  ¬ reaches_caller
      (show (boot untranslated (Some {["error" := VBool true]}))).2
  ∧ ∃ w', run untranslated sample_toDataURL
            (boot untranslated (Some {["error" := VBool true]}))
            [CallShow; Deny 0 "NotAllowedError"] = Some w'
      ∧ log w' = [FxGetUserMedia "environment";
                  FxAlert "Unable to load camera." (Some 3%Z);
                  FxUncaught "NotAllowedError"]
      ∧ idle w' = true.
Proof.
  split.
  - intros [p Hp]. discriminate Hp.
  - eexists. split; [vm_compute; reflexivity|]. split; reflexivity.
Qed.

Lemma failure_keeps_images_and_facing_mode_witness :
  ∃ w w', run untranslated sample_toDataURL (boot untranslated None)
            [CallShow; Grant 0 1; Playback 640 480 1; ClickPrimary;
             ClickCustom 0; ClickSecondary] = Some w
    ∧ step untranslated sample_toDataURL w (Deny 1 "NotFoundError") = Some w'
    ∧ images (this w') = images (this w)
    ∧ facing_mode (this w') = facing_mode (this w).
Proof.
  do 2 eexists. split; [vm_compute; reflexivity|].
  split; [vm_compute; reflexivity|].
  apply (proj2 (failure_keeps_images_and_facing_mode
                  untranslated sample_toDataURL _ "NotFoundError") 1 _).
  vm_compute; reflexivity.
Defined.

Lemma hide_releases_held_stream_and_is_idempotent_witness :
  hide (boot untranslated None) = boot untranslated None
  ∧ ∃ w, run untranslated sample_toDataURL (boot untranslated None)
           [CallShow; Grant 0 2; Playback 640 480 1; ClickPrimary] = Some w
      ∧ streams w = [{| facingMode := "environment";
                        getTracks := [live; live] |}]
      ∧ streams (hide w) !! 0
        = Some {| facingMode := "environment"; getTracks := [ended; ended] |}
      ∧ active_streams w = 1
      ∧ active_streams (hide w) = 0.
Proof.
  split.
  - apply (hide_releases_held_stream_and_is_idempotent
             untranslated sample_toDataURL); reflexivity.
  - eexists. split; [vm_compute; reflexivity|].
    split; [reflexivity|].
    split.
    { apply (proj1 (proj2 (hide_releases_held_stream_and_is_idempotent
                             untranslated sample_toDataURL _)) 0
               {| facingMode := "environment"; getTracks := [live; live] |});
        reflexivity. }
    split; [reflexivity|].
    apply (hide_releases_held_stream_and_is_idempotent
             untranslated sample_toDataURL).
    intros [|s] m Hs Ha; [reflexivity | discriminate Hs].
Defined.

(** C7, as worded, fails: [show] is called twice and both requests are
    granted, so the session holds the second stream and a dialog; [hide]
    stops the tracks of the second stream, and the first stream, which
    [this.stream] no longer holds, is still active when [hide] returns. *)
Lemma hide_leaves_replaced_stream_active :
  ∃ w, run untranslated sample_toDataURL (boot untranslated None)
         [CallShow; CallShow; Grant 0 1; Grant 1 1] = Some w
    ∧ stream (this w) = Some 1
    ∧ streams (hide w)
      = [{| facingMode := "environment"; getTracks := [live] |};
         {| facingMode := "environment"; getTracks := [ended] |}]
    ∧ shown (hide w) = false
    ∧ active_streams (hide w) = 1
    ∧ active_streams (hide w) ≠ 0.
Proof.
  eexists. split; [vm_compute; reflexivity|].
  do 4 (split; [reflexivity|]). discriminate.
Qed.

Lemma submit_only_registers_witness :
  ∃ w, run untranslated sample_toDataURL (boot untranslated None)
         [CallShow; Grant 0 1; Playback 640 480 1; ClickPrimary] = Some w
    ∧ step untranslated sample_toDataURL w ClickPrimary = Some (hide w)
    ∧ calls (log (hide w)) = calls (log w)
    ∧ callback (this (hide w)) = None
    ∧ shown w = true
    ∧ shown (hide w) = false
    ∧ held_active (hide w) = false
    ∧ streams (hide w) !! 0
      = Some {| facingMode := "environment"; getTracks := [ended] |}
    ∧ log (hide w)
      = (log w ++ [FxDialogHide; FxStopTracks 0; FxStopTracks 0])%list.
Proof.
  eexists. split; [vm_compute; reflexivity|].
  destruct (proj2 (submit_only_registers untranslated sample_toDataURL
                     (default (boot untranslated None)
                        (run untranslated sample_toDataURL
                           (boot untranslated None)
                           [CallShow; Grant 0 1; Playback 640 480 1;
                            ClickPrimary])) 0))
    as (H1 & H2 & H3 & H4 & H5 & H6 & H7 & H8 & _);
    [vm_compute; eauto..|].
  split; [exact H1|]. split; [exact H2|]. split; [exact H3|].
  split; [exact H4|]. split; [exact H5|]. split; [exact H6|].
  split; [|exact H8].
  apply (H7 0 {| facingMode := "environment"; getTracks := [live] |});
    reflexivity.
Defined.

Lemma images_balance_handler_runs_witness :
  ∃ w', run untranslated sample_toDataURL (boot untranslated None)
          [CallShow; Grant 0 1; Playback 640 480 1; ClickPrimary;
           ClickSecondary; Playback 640 480 2; ClickPrimary;
           ClickCustom 0; Playback 640 480 3; ClickPrimary] = Some w'
    ∧ images (this w')
      = ["data:image/png;base64,C"; "data:image/png;base64,D"]
    ∧ length (images (this w'))
      + tally untranslated sample_toDataURL undone (boot untranslated None)
          [CallShow; Grant 0 1; Playback 640 480 1; ClickPrimary;
           ClickSecondary; Playback 640 480 2; ClickPrimary;
           ClickCustom 0; Playback 640 480 3; ClickPrimary]
      = tally untranslated sample_toDataURL captured (boot untranslated None)
          [CallShow; Grant 0 1; Playback 640 480 1; ClickPrimary;
           ClickSecondary; Playback 640 480 2; ClickPrimary;
           ClickCustom 0; Playback 640 480 3; ClickPrimary].
Proof.
  eexists. split; [vm_compute; reflexivity|].
  split; [reflexivity|].
  apply (proj1 (images_balance_handler_runs untranslated sample_toDataURL)
           None).
  vm_compute; reflexivity.
Defined.

Lemma retake_removes_last_capture_witness :
  ∃ w, run untranslated sample_toDataURL (boot untranslated None)
         [CallShow; Grant 0 1; Playback 640 480 1; ClickPrimary] = Some w
    ∧ ∃ w', step untranslated sample_toDataURL w ClickSecondary = Some w'
        ∧ images (this w') = pop (images (this w))
        ∧ length (images (this w')) = length (images (this w)) - 1
        ∧ facing_mode (this w') = facing_mode (this w)
        ∧ streams w' = streams w
        ∧ Previewing untranslated w'
        ∧ fires w' ClickSecondary = Some SwitchCamera.
Proof.
  eexists. split; [vm_compute; reflexivity|].
  apply (retake_removes_last_capture untranslated sample_toDataURL).
  - do 2 eexists. repeat split.
  - reflexivity.
Defined.

Lemma switch_camera_releases_then_requests_witness :
  ∃ w, run untranslated sample_toDataURL (boot untranslated None)
         [CallShow; Grant 0 2; ClickSecondary] = Some w
    ∧ only_held_active w
    ∧ ∃ w', step untranslated sample_toDataURL w ClickSecondary = Some w'
        ∧ facing_mode (this w') = "user"
        ∧ held_active w' = false
        ∧ active_streams w' = 0.
Proof.
  eexists. split; [vm_compute; reflexivity|].
  match goal with
  | |- only_held_active ?w ∧ _ =>
      assert (Hone : only_held_active w)
        by (intros [|s] m Hs Ha; [reflexivity | discriminate Hs]);
      destruct (switch_camera_releases_then_requests
                  untranslated sample_toDataURL w)
        as (w' & Hstep & Hfm & _ & Hheld & _ & _ & _ & Hact)
  end.
  - do 3 eexists. repeat split.
  - reflexivity.
  - split; [exact Hone|].
    exists w'. split; [exact Hstep|]. split; [exact Hfm|].
    split; [exact Hheld|]. apply Hact. exact Hone.
Defined.

Lemma facing_mode_toggles_between_two_witness :
  ∃ w, run untranslated sample_toDataURL (boot untranslated None)
         [CallShow; Grant 0 1; ClickSecondary; ClickSecondary; Grant 1 1;
          ClickSecondary; ClickSecondary] = Some w
    ∧ (facing_mode (this w) = "environment" ∨ facing_mode (this w) = "user")
    ∧ other_facing_mode (facing_mode (this w)) ≠ facing_mode (this w)
    ∧ other_facing_mode (other_facing_mode (facing_mode (this w)))
      = facing_mode (this w).
Proof.
  eexists. split; [vm_compute; reflexivity|].
  apply (facing_mode_toggles_between_two untranslated sample_toDataURL None
           [CallShow; Grant 0 1; ClickSecondary; ClickSecondary; Grant 1 1;
            ClickSecondary; ClickSecondary]).
  vm_compute; reflexivity.
Defined.

Lemma grant_renders_preview_witness :
  ∃ w w', run untranslated sample_toDataURL
            (boot untranslated (Some {["title" := VStr "Selfie"]}))
            [CallShow] = Some w
    ∧ step untranslated sample_toDataURL w (Grant 0 2) = Some w'
    ∧ Previewing untranslated w'
    ∧ (title <$> dialog (this w')) = Some (VStr "Selfie")
    ∧ streams w' = [{| facingMode := "environment";
                       getTracks := [live; live] |}]
    ∧ step untranslated sample_toDataURL w' (Grant 0 2) = None.
Proof.
  do 2 eexists. split; [vm_compute; reflexivity|].
  split; [vm_compute; reflexivity|].
  split; [do 3 eexists; repeat split|].
  split; [vm_compute; reflexivity|].
  split; [reflexivity|].
  apply (proj2 (grant_renders_preview untranslated sample_toDataURL _ 0 2));
    [|exact ""].
  intros m Hm. vm_compute in Hm. discriminate Hm.
Defined.

Lemma grant_over_active_stream_leaks_witness :
  ∃ w, run untranslated sample_toDataURL (boot untranslated None)
         [CallShow; CallShow; Grant 0 1] = Some w
    ∧ (∀ i, i ≠ 0 → streams (hide w) !! i = streams w !! i)
    ∧ ∃ w', step untranslated sample_toDataURL w (Grant 1 1) = Some w'
        ∧ stream (this w') = Some (length (streams w))
        ∧ streams w' !! 0
          = Some {| facingMode := "environment"; getTracks := [live] |}
        ∧ streams (hide w') !! 0
          = Some {| facingMode := "environment"; getTracks := [live] |}
        ∧ streams (hide (hide w')) !! 0
          = Some {| facingMode := "environment"; getTracks := [live] |}
        ∧ held_active (hide w') = false
        ∧ (1 ≤ active_streams (hide w'))%nat.
Proof.
  eexists. split; [vm_compute; reflexivity|].
  apply (grant_over_active_stream_leaks untranslated sample_toDataURL
           _ 1 1 0 "environment");
    vm_compute; reflexivity.
Defined.

Lemma first_secondary_click_after_grant_pops_witness :
  ∃ w w1, run untranslated sample_toDataURL (boot untranslated None)
            [CallShow; Grant 0 1; Playback 640 480 1; ClickPrimary;
             ClickCustom 0; ClickSecondary] = Some w
    ∧ images (this w) = ["data:image/png;base64,B"]
    ∧ step untranslated sample_toDataURL w (Grant 1 1) = Some w1
    ∧ ∃ w2, fires w1 ClickSecondary = Some Retake
        ∧ step untranslated sample_toDataURL w1 ClickSecondary = Some w2
        ∧ images (this w2) = pop (images (this w))
        ∧ facing_mode (this w2) = facing_mode (this w)
        ∧ streams w2 = streams w1
        ∧ requests w2 = requests w1
        ∧ log w2 = log w1
        ∧ Previewing untranslated w2
        ∧ fires w2 ClickSecondary = Some SwitchCamera.
Proof.
  do 2 eexists. split; [vm_compute; reflexivity|].
  split; [reflexivity|].
  split; [vm_compute; reflexivity|].
  apply (first_secondary_click_after_grant_pops untranslated sample_toDataURL
           _ _ 1 1).
  vm_compute; reflexivity.
Defined.


Lemma images_kept_until_retake_witness :
  ∃ w, run untranslated sample_toDataURL (boot untranslated None)
         [CallSubmit 7; CallShow; Grant 0 1; Playback 640 480 1;
          ClickPrimary; ClickPrimary; CallShow; Grant 1 1;
          Playback 640 480 2; ClickPrimary; ClickPrimary] = Some w
    ∧ calls (log w)
      = [(7, ["data:image/png;base64,B"]);
         (7, ["data:image/png;base64,B"; "data:image/png;base64,C"])]
    ∧ ∃ more, images (this w) = ([] ++ more)%list ∧ length more = 2.
Proof.
  eexists. split; [vm_compute; reflexivity|]. split; [reflexivity|].
  apply (images_kept_until_retake untranslated sample_toDataURL
           [CallSubmit 7; CallShow; Grant 0 1; Playback 640 480 1;
            ClickPrimary; ClickPrimary; CallShow; Grant 1 1;
            Playback 640 480 2; ClickPrimary; ClickPrimary]
           (boot untranslated None));
    vm_compute; reflexivity.
Defined.

Lemma hide_does_not_cancel_request_witness :
  ∃ w, run untranslated sample_toDataURL (boot untranslated None)
         [CallShow] = Some w
    ∧ requests (hide w) !! 0 = Some (pending "environment")
    ∧ ∃ w', step untranslated sample_toDataURL (hide w) (Grant 0 1) = Some w'
        ∧ shown w' = true
        ∧ Previewing untranslated w'
        ∧ stream (this w') = Some (length (streams w))
        ∧ streams w' !! length (streams w)
          = Some {| facingMode := "environment";
                    getTracks := replicate 1 live |}
        ∧ held_active w' = negb (Nat.eqb 1 0).
Proof.
  eexists. split; [vm_compute; reflexivity|].
  apply (hide_does_not_cancel_request untranslated sample_toDataURL _ 0 1).
  vm_compute; reflexivity.
Defined.

(** * frappe/public/js/frappe/misc/user.js

    Properties of the helpers on users. *)

(** ** Strings *)

Lemma append_nil_r (s : string) : s ++ "" = s.
Proof.
  induction s as [|c s IH]; [reflexivity|].
  change (String c (s ++ "") = String c s). f_equal. exact IH.
Qed.

Lemma append_assoc (s1 s2 s3 : string) : (s1 ++ s2) ++ s3 = s1 ++ (s2 ++ s3).
Proof.
  induction s1 as [|c s1 IH]; [reflexivity|].
  change (String c ((s1 ++ s2) ++ s3) = String c (s1 ++ (s2 ++ s3))).
  f_equal. exact IH.
Qed.

Lemma length_append (s1 s2 : string) :
  String.length (s1 ++ s2) = String.length s1 + String.length s2.
Proof.
  induction s1 as [|c s1 IH]; [reflexivity|].
  change (S (String.length (s1 ++ s2))
          = S (String.length s1 + String.length s2)).
  f_equal. exact IH.
Qed.

Lemma length_string_of_list_ascii l :
  String.length (String.string_of_list_ascii l) = length l.
Proof. induction l as [|c l IH]; simpl; [reflexivity | f_equal; exact IH]. Qed.

Lemma found_elem_of l x : found l x = true ↔ x ∈ l.
Proof.
  unfold found. rewrite existsb_exists. split.
  - intros (y & Hy & Heq). apply String.eqb_eq in Heq as ->.
    apply list_elem_of_In. exact Hy.
  - intros Hx. exists x. split; [apply list_elem_of_In; exact Hx|].
    apply String.eqb_refl.
Qed.

Lemma found_false l x : found l x = false ↔ x ∉ l.
Proof.
  rewrite <- found_elem_of. destruct (found l x); split; congruence.
Qed.

(** A word that [trim] leaves something of starts, after trimming, with a
    code unit that is no white space and that occurs in the word. *)
Lemma trimStart_head s c t :
  trimStart s = String c t →
  is_white_space c = false ∧ c ∈ String.list_ascii_of_string s.
Proof.
  induction s as [|a s IH]; simpl; [discriminate|].
  destruct (is_white_space a) eqn:Ha.
  - intros H. destruct (IH H) as [Hc Hin]. split; [exact Hc|].
    apply elem_of_cons. right. exact Hin.
  - intros [= -> ->]. split; [exact Ha | apply elem_of_cons; left; reflexivity].
Qed.

Lemma trimEnd_head s c t : trimEnd s = String c t → ∃ t', s = String c t'.
Proof.
  destruct s as [|a s]; simpl; [discriminate|].
  destruct (trimEnd s); [destruct (is_white_space a); [discriminate|]|];
    intros [= -> _]; eauto.
Qed.

Lemma trim_head w c t :
  trim w = String c t →
  is_white_space c = false ∧ c ∈ String.list_ascii_of_string w.
Proof.
  unfold trim. intros H. apply trimEnd_head in H as [t' H].
  apply trimStart_head in H. exact H.
Qed.

Lemma split_elem_of sep s w c :
  w ∈ split sep s → c ∈ String.list_ascii_of_string w → c ∈ String.list_ascii_of_string s.
Proof.
  revert w. induction s as [|a s IH]; intros w; simpl.
  - intros ->%list_elem_of_singleton. simpl. intros H. inversion H.
  - destruct (Ascii.eqb a sep).
    + intros [-> | Hw]%elem_of_cons Hc; [inversion Hc|].
      apply elem_of_cons. right. eauto.
    + destruct (split sep s) as [|p ps] eqn:Hs.
      * intros ->%list_elem_of_singleton Hc. simpl in Hc.
        apply elem_of_cons in Hc as [-> | Hc]; [|inversion Hc].
        apply elem_of_cons. left. reflexivity.
      * intros [-> | Hw]%elem_of_cons Hc.
        -- simpl in Hc. apply elem_of_cons in Hc as [-> | Hc];
             apply elem_of_cons; [left; reflexivity | right].
           apply (IH p); [apply elem_of_cons; left; reflexivity | exact Hc].
        -- apply elem_of_cons. right.
           apply (IH w); [apply elem_of_cons; right; exact Hw | exact Hc].
Qed.

Lemma initials_elem_of ws c :
  c ∈ initials ws →
  is_white_space c = false ∧ ∃ w, w ∈ ws ∧ c ∈ String.list_ascii_of_string w.
Proof.
  unfold initials. intros (w & Hw & Hc)%list_elem_of_omap.
  destruct (trim w) as [|c' t] eqn:Ht; [discriminate|].
  injection Hc as ->. destruct (trim_head _ _ _ Ht). eauto.
Qed.

(** ** [get_abbr] *)

(** The loop that leaves at [limit] code units collects a prefix of the
    initials. *)
Lemma each_word_initials limit ws : ∀ abbr,
  each_word limit ws abbr
  = abbr ++ String.string_of_list_ascii
              (take (Z.to_nat limit - String.length abbr) (initials ws)).
Proof.
  induction ws as [|w ws IH]; intros abbr; simpl.
  - rewrite take_nil. simpl. rewrite append_nil_r. reflexivity.
  - destruct (limit <=? Z.of_nat (String.length abbr))%Z eqn:Hl.
    + apply Z.leb_le in Hl.
      replace (Z.to_nat limit - String.length abbr) with 0 by lia.
      simpl. rewrite append_nil_r. reflexivity.
    + apply Z.leb_gt in Hl. unfold initials; simpl.
      destruct (trim w) as [|c t]; simpl.
      * apply IH.
      * rewrite IH, length_append; simpl.
        replace (Z.to_nat limit - String.length abbr)
          with (S (Z.to_nat limit - (String.length abbr + 1))) by lia.
        simpl. rewrite append_assoc. reflexivity.
Qed.

Lemma get_abbr_take a t max_length :
  get_abbr (Some (String a t)) max_length
  = match take (Z.to_nat (limit_of max_length))
               (initials (split " "%char (String a t))) with
    | [] => "?"
    | l => String.string_of_list_ascii l
    end.
Proof.
  unfold get_abbr. rewrite each_word_initials. simpl String.length.
  rewrite Nat.sub_0_r.
  destruct (take _ _); reflexivity.
Qed.

(** With the default length the abbreviation has at most two code units,
    and it is empty only for a text that is missing or empty. *)
Lemma get_abbr_default txt :
  (String.length (get_abbr txt None) ≤ 2)%nat
  ∧ (get_abbr txt None = "" ↔ txt = None ∨ txt = Some "").
Proof.
  destruct txt as [[|a t]|].
  - split; [simpl; lia | split; auto].
  - rewrite get_abbr_take.
    destruct (take (Z.to_nat (limit_of None))
                   (initials (split " "%char (String a t))))
      as [|c l] eqn:Htake.
    + split; [simpl; lia|]. split; [discriminate | intros [|]; discriminate].
    + split; [|split; [discriminate | intros [|]; discriminate]].
      rewrite length_string_of_list_ascii, <- Htake, length_take.
      change (Z.to_nat (limit_of None)) with 2. lia.
  - split; [simpl; lia | split; auto].
Qed.

(** X4: for a text that is there and not empty, [get_abbr] returns the
    initials of its words (the first code unit, white space apart, of
    every word between single spaces that is not blank), in order, cut to
    [max_length] of them (2 when [max_length] is left out or 0), and "?"
    when that leaves nothing; for a text that is missing or empty it
    returns the empty string. *)
Theorem get_abbr_initials (txt : option string) (max_length : option Z) :
  get_abbr txt max_length
  = match txt with
    | None | Some EmptyString => ""
    | Some t =>
        match take (Z.to_nat (limit_of max_length))
                   (initials (split " "%char t)) with
        | [] => "?"
        | l => String.string_of_list_ascii l
        end
    end.
Proof.
  destruct txt as [[|c t]|]; [reflexivity | | reflexivity].
  unfold get_abbr. rewrite each_word_initials.
  change (String.length "") with 0. rewrite Nat.sub_0_r.
  destruct (take (Z.to_nat (limit_of max_length))
                 (initials (split " "%char (String c t)))); reflexivity.
Qed.

(** X5: the abbreviation of a text that is there and not empty is never
    empty and never longer than [max_length] (than 2 when it is left out
    or 0, than 1 when it is negative); it is "?" or made of code units of
    the text that are no white space; with a negative [max_length] it is
    always "?".  Only a missing or empty text gives the empty string. *)
Theorem get_abbr_bounds (txt : option string) (max_length : option Z) :
  let r := get_abbr txt max_length in
  (r = "" ↔ txt = None ∨ txt = Some "")
  ∧ (Z.of_nat (String.length r) ≤ Z.max 1 (limit_of max_length))%Z
  ∧ (r = "?" ∨ r = ""
     ∨ ∀ c, c ∈ String.list_ascii_of_string r →
         is_white_space c = false
         ∧ ∃ t, txt = Some t ∧ c ∈ String.list_ascii_of_string t)
  ∧ ((limit_of max_length < 0)%Z → r = "" ∨ r = "?").
Proof.
  intros r. subst r.
  destruct txt as [[|a t]|]; [| rewrite get_abbr_take |].
  - split; [split; auto|]. split; [simpl; lia|]. auto.
  - set (ws := split " "%char (String a t)).
    destruct (take (Z.to_nat (limit_of max_length)) (initials ws))
      as [|c l] eqn:Htake.
    + split; [split; [discriminate | intros [|]; discriminate]|].
      split; [simpl; lia|]. auto.
    + split; [split; [discriminate | intros [|]; discriminate]|].
      split.
      { rewrite length_string_of_list_ascii, <- Htake, length_take. lia. }
      split.
      { right. right. intros x Hx.
        rewrite String.list_ascii_of_string_of_list_ascii, <- Htake in Hx.
        apply elem_of_take in Hx as (i & Hx & _).
        apply list_elem_of_lookup_2 in Hx.
        apply initials_elem_of in Hx as (Hsp & w & Hw & Hc).
        split; [exact Hsp|]. exists (String a t). split; [reflexivity|].
        apply (split_elem_of _ _ _ _ Hw Hc). }
      intros Hneg. replace (Z.to_nat (limit_of max_length)) with 0 in Htake
        by lia. discriminate Htake.
  - split; [split; auto|]. split; [simpl; lia|]. auto.
Qed.

(** ** [frappe.user_info] *)

(** X6: [user_info] ends in a TypeError exactly when there is no
    [frappe.boot].  Otherwise what it hands back always carries an
    abbreviation, the one [get_abbr] gives for its full name with the
    default length: at most two code units, and not empty when the full
    name is there and not empty.  For a name that the boot table neither
    has nor inherits, the entry is made up with a full name that is never
    empty (so neither is the abbreviation), and the table is left as it
    is.  For a name that the table only inherits from [Object.prototype]
    ("constructor"), the member is handed back with the empty
    abbreviation assigned to it: no entry is made up, and the table is
    left as it is. *)
Theorem user_info_abbr toTitle user proto boot uid :
  let uid' := match uid with
              | None | Some EmptyString => user
              | Some u => u
              end in
  let known := match boot with
               | Some (Some table) => read proto table uid'
               | _ => undefined
               end in
  (user_info toTitle user proto boot uid = None ↔ boot = None)
  ∧ ∀ r boot_user_info',
      user_info toTitle user proto boot uid = Some (r, boot_user_info') →
      abbr_of r = Some (get_abbr (fullname_of r) None)
      ∧ (∃ a, abbr_of r = Some a ∧ (String.length a ≤ 2)%nat
           ∧ (a = "" ↔ fullname_of r = None ∨ fullname_of r = Some ""))
      ∧ (known = undefined →
         boot = Some boot_user_info'
         ∧ ∃ f, r = entry {| fullname := Some f; image := None;
                             abbr := Some (get_abbr (Some f) None) |}
             ∧ f ≠ ""
             ∧ (f = "Unknown" ∨ f = toTitle (hd "" (split "@"%char uid'))))
      ∧ (∀ name, known = member name →
         name = uid' ∧ uid' ∈ proto
         ∧ r = builtin uid' "" ∧ boot = Some boot_user_info').
Proof.
  intros uid' known. split.
  { unfold user_info. fold uid'. destruct boot as [boot_user_info|].
    - split; [|discriminate].
      destruct (match boot_user_info with
                | Some table => read proto table uid'
                | None => undefined
                end); discriminate.
    - split; reflexivity. }
  intros r t' Hr.
  assert (Habbr : abbr_of r = Some (get_abbr (fullname_of r) None)).
  { unfold user_info in Hr. fold uid' in Hr.
    destruct boot as [boot_user_info|]; [|discriminate].
    destruct (match boot_user_info with
              | Some table => read proto table uid'
              | None => undefined
              end); injection Hr as <- <-; reflexivity. }
  split; [exact Habbr|]. split.
  { exists (get_abbr (fullname_of r) None). split; [exact Habbr|].
    apply get_abbr_default. }
  unfold user_info in Hr. fold uid' in Hr.
  destruct boot as [boot_user_info|]; [|discriminate].
  assert (Hknown : known = match boot_user_info with
                           | Some table => read proto table uid'
                           | None => undefined
                           end)
    by (subst known; destruct boot_user_info; reflexivity).
  rewrite <- Hknown in Hr. clear Hknown. split.
  - intros Hu. rewrite Hu in Hr. injection Hr as <- <-.
    split; [reflexivity|].
    destruct (toTitle (hd "" (split "@"%char uid'))) as [|c t] eqn:Ht.
    + exists "Unknown". split; [reflexivity|]. split; [discriminate | auto].
    + exists (String c t). split; [reflexivity|]. split; [discriminate | auto].
  - intros name Hm. rewrite Hm in Hr. injection Hr as <- <-.
    assert (Hname : name = uid' ∧ uid' ∈ proto).
    { subst known. destruct boot_user_info as [table|]; [|discriminate].
      unfold read in Hm. destruct (table !! uid'); [discriminate|].
      destruct (found proto uid') eqn:Hf; [|discriminate].
      injection Hm as <-. split; [reflexivity|].
      apply found_elem_of. exact Hf. }
    destruct Hname as [-> Hin]. repeat split. exact Hin.
Qed.

(** X7: for a user the boot table knows, [user_info] returns the entry of
    the table with its abbreviation filled in and writes that entry back
    under the same key: name and image are kept, no other user is touched,
    and a second call returns the same entry and leaves the table as the
    first call left it. *)
Theorem user_info_caches toTitle user proto (table : gmap string UserInfo)
    uid info :
  let uid' := match uid with
              | None | Some EmptyString => user
              | Some u => u
              end in
  table !! uid' = Some info →
  ∃ info' table',
    user_info toTitle user proto (Some (Some table)) uid
    = Some (entry info', Some table')
    ∧ fullname info' = fullname info
    ∧ image info' = image info
    ∧ abbr info' = Some (get_abbr (fullname info) None)
    ∧ table' !! uid' = Some info'
    ∧ (∀ other, other ≠ uid' → table' !! other = table !! other)
    ∧ user_info toTitle user proto (Some (Some table')) uid
      = Some (entry info', Some table').
Proof.
  intros uid' Hinfo.
  set (info' := {| fullname := fullname info; image := image info;
                   abbr := Some (get_abbr (fullname info) None) |}).
  exists info', (<[uid' := info']> table).
  assert (H1 : ∀ t i, t !! uid' = Some i →
                user_info toTitle user proto (Some (Some t)) uid
                = Some (entry {| fullname := fullname i; image := image i;
                                 abbr := Some (get_abbr (fullname i) None) |},
                        Some (<[uid' := {| fullname := fullname i;
                                           image := image i;
                                           abbr := Some (get_abbr (fullname i)
                                                                  None) |}]> t))).
  { intros t i Hi. unfold user_info, read. fold uid'. rewrite Hi.
    reflexivity. }
  split; [apply H1; exact Hinfo|].
  do 3 (split; [reflexivity|]).
  split; [apply lookup_insert_eq|].
  split; [intros other Hne; apply lookup_insert_ne; congruence|].
  rewrite (H1 _ info') by apply lookup_insert_eq.
  simpl. rewrite insert_insert_eq. reflexivity.
Qed.

(** ** [frappe.get_gravatar] *)

(** X8: [get_gravatar] hands back what the cache reads under the address
    after the call, which is never [undefined] and never the empty
    string.  An own entry that is not empty is handed back as it is and
    the cache is not written.  For an address that the cache only
    inherits from [Object.prototype] ("constructor"), the member is handed
    back: no URL is computed and the cache is not written.  Otherwise the
    URL is computed from the MD5 of the address and stored.  No other
    entry changes, and a second call hands back the same and leaves the
    cache as it is. *)
Theorem get_gravatar_caches md5 proto (gravatars : gmap string string)
    email_id :
  let r := get_gravatar md5 proto gravatars email_id in
  let url := "https://secure.gravatar.com/avatar/" ++ md5 email_id
             ++ "?d=retro" in
  r.1 = read proto r.2 email_id
  ∧ r.1 ≠ undefined ∧ r.1 ≠ own ""
  ∧ (∀ other, other ≠ email_id → r.2 !! other = gravatars !! other)
  ∧ get_gravatar md5 proto r.2 email_id = r
  ∧ match gravatars !! email_id with
    | Some (String c s) => r = (own (String c s), gravatars)
    | Some EmptyString => r = (own url, <[email_id := url]> gravatars)
    | None =>
        if found proto email_id then r = (member email_id, gravatars)
        else r = (own url, <[email_id := url]> gravatars)
    end.
Proof.
  intros r url. subst r. unfold get_gravatar, read.
  assert (Hurl : ∃ c t, url = String c t)
    by (do 2 eexists; reflexivity).
  destruct Hurl as (c0 & t0 & Hurl). fold url. rewrite Hurl.
  destruct (gravatars !! email_id) as [[|c s]|] eqn:Hg;
    [| |destruct (found proto email_id) eqn:Hf];
    repeat (simpl; rewrite ?lookup_insert_eq, ?Hg, ?Hf);
    repeat split; try discriminate;
    intros other Hne; apply lookup_insert_ne; congruence.
Qed.

(** ** [frappe.user.has_role] *)

(** X9: [has_role] returns [true] exactly when one of the roles asked for
    is among the user's roles (among ["Guest"] alone while there is no boot
    data), and [undefined], never [false], otherwise; a single role is
    treated as the list of that role.  Without boot data the user has the
    role "Guest" and is no report manager. *)
Theorem has_role_true_or_undefined boot_roles rl :
  let asked := match rl with inl r => [r] | inr l => l end in
  let roles := default ["Guest"] boot_roles in
  (has_role boot_roles rl = VBool true ↔ ∃ r, r ∈ asked ∧ r ∈ roles)
  ∧ (has_role boot_roles rl = VUndefined ↔ ∀ r, r ∈ asked → r ∉ roles)
  ∧ has_role boot_roles rl ≠ VBool false
  ∧ has_role boot_roles (inr asked) = has_role boot_roles rl
  ∧ has_role None (inl "Guest") = VBool true
  ∧ is_report_manager None = VUndefined
  ∧ (is_report_manager boot_roles = VBool true ↔
     "Administrator" ∈ roles ∨ "System Manager" ∈ roles
     ∨ "Report Manager" ∈ roles).
Proof.
  intros asked roles.
  assert (Hex : ∀ l, existsb (found roles) l = true ↔ ∃ r, r ∈ l ∧ r ∈ roles).
  { intros l. rewrite existsb_exists. split.
    - intros (r & Hr & Hf). exists r. split; [apply list_elem_of_In; exact Hr|].
      apply found_elem_of. exact Hf.
    - intros (r & Hr & Hf). exists r. split; [apply list_elem_of_In; exact Hr|].
      apply found_elem_of. exact Hf. }
  assert (Hrole : ∀ l, (has_role boot_roles (inr l) = VBool true
                        ↔ ∃ r, r ∈ l ∧ r ∈ roles)
                       ∧ (has_role boot_roles (inr l) = VUndefined
                          ↔ ∀ r, r ∈ l → r ∉ roles)
                       ∧ has_role boot_roles (inr l) ≠ VBool false).
  { intros l. unfold has_role. fold roles. specialize (Hex l).
    destruct (existsb (found roles) l).
    - split; [split; [intros _; apply Hex; reflexivity | reflexivity]|].
      split; [|discriminate]. split; [discriminate|].
      intros Hno. destruct (proj1 Hex eq_refl) as (r & Hr & Hin).
      destruct (Hno r Hr Hin).
    - split; [split; [discriminate | intros H; apply Hex in H; discriminate]|].
      split; [|discriminate]. split; [|reflexivity].
      intros _ r Hr Hin. assert (false = true) by (apply Hex; eauto).
      discriminate. }
  assert (Hsame : has_role boot_roles (inr asked) = has_role boot_roles rl).
  { destruct rl; reflexivity. }
  rewrite <- Hsame. destruct (Hrole asked) as (Ht & Hu & Hf).
  split; [exact Ht|]. split; [exact Hu|]. split; [exact Hf|].
  split; [reflexivity|]. split; [reflexivity|]. split; [reflexivity|].
  unfold is_report_manager.
  destruct (Hrole ["Administrator"; "System Manager"; "Report Manager"])
    as (Hm & _). rewrite Hm. split.
  - intros (r & Hr & Hin).
    repeat (apply elem_of_cons in Hr as [-> | Hr]; [auto|]). inversion Hr.
  - intros [H | [H | H]]; eexists; (split; [|exact H]);
      repeat ((apply elem_of_cons; left; reflexivity)
              || (apply elem_of_cons; right)).
Qed.

(** ** [frappe.user.get_desktop_items] *)

Lemma filter_sublist {A} (p : A → bool) (l : list A) :
  sublist (List.filter p l) l.
Proof.
  induction l as [|x l IH]; simpl; [constructor|].
  destruct (p x); [apply sublist_skip | apply sublist_cons]; exact IH.
Qed.

Lemma filter_elem_of {A} (p : A → bool) (l : list A) x :
  x ∈ List.filter p l ↔ x ∈ l ∧ p x = true.
Proof. rewrite !list_elem_of_In. apply filter_In. Qed.

Lemma filter_StronglySorted {A} (R : relation A) (p : A → bool) l :
  StronglySorted R l → StronglySorted R (List.filter p l).
Proof.
  induction 1 as [|x l Hl IH Hx]; simpl; [constructor|].
  destruct (p x); [|exact IH]. constructor; [exact IH|].
  apply Forall_forall. intros y Hy%filter_elem_of.
  rewrite Forall_forall in Hx. apply Hx. apply Hy.
Qed.

Lemma filter_filter_andb {A} (p q : A → bool) (l : list A) :
  List.filter q (List.filter p l) = List.filter (λ x, p x && q x) l.
Proof.
  induction l as [|x l IH]; simpl; [reflexivity|].
  destruct (p x); simpl; [destruct (q x)|]; rewrite IH; reflexivity.
Qed.

Lemma if_permitted_filter d l :
  omap (if_permitted d) l = List.filter (permitted d) l.
Proof.
  assert (H : ∀ m x, if_permitted d m = Some x → x = m).
  { intros m x. unfold if_permitted.
    destruct (module_of d m ≫= type) as [t|]; [|congruence].
    repeat match goal with
           | |- context [if ?b then _ else _] => destruct b
           | |- context [match ?o with Some _ => _ | None => _ end] =>
               destruct o
           end; congruence. }
  induction l as [|m l IH]; [reflexivity|].
  change (match if_permitted d m with
          | Some y => y :: omap (if_permitted d) l
          | None => omap (if_permitted d) l
          end = List.filter (permitted d) (m :: l)).
  rewrite IH. simpl.
  assert (Hp : permitted d m
               = match if_permitted d m with Some _ => true | None => false end)
    by reflexivity.
  rewrite Hp.
  destruct (if_permitted d m) as [x|] eqn:Hm; [|reflexivity].
  rewrite (H _ _ Hm). reflexivity.
Qed.

Lemma unless_hidden_filter d hidden_list l :
  map_or_throw (unless_hidden d hidden_list) l
  = if existsb (stale d hidden_list) l then None
    else Some (List.filter
                 (λ m, negb (found hidden_list m)
                       || match module_of d m with
                          | Some md => force_show md
                          | None => false
                          end) l).
Proof.
  induction l as [|m l IH]; simpl; [reflexivity|].
  rewrite IH. unfold unless_hidden, stale.
  destruct (found hidden_list m); simpl.
  - destruct (module_of d m) as [md|]; simpl.
    + destruct (existsb _ l); [reflexivity|].
      destruct (force_show md); reflexivity.
    + destruct (found (prototype d) m); simpl; [|reflexivity].
      destruct (existsb _ l); reflexivity.
  - destruct (existsb _ l); reflexivity.
Qed.

(** The two [$.map] passes are one filter of the candidates. *)
Lemma get_desktop_items_filter global d :
  get_desktop_items global d
  = if throws global d then None
    else Some (List.filter (λ m, unhidden d m && permitted d m)
                           (candidates global d)).
Proof.
  unfold get_desktop_items, throws, unhidden.
  destruct (hidden_modules d) as [h|].
  - rewrite unless_hidden_filter.
    destruct (existsb _ _); [reflexivity|].
    rewrite if_permitted_filter, filter_filter_andb. reflexivity.
  - rewrite if_permitted_filter. reflexivity.
Qed.

Lemma module_of_keys d m : m ∈ keys d ↔ is_Some (module_of d m).
Proof.
  unfold keys, module_of. induction (modules d) as [|[k md] l IH]; simpl.
  - split; [intros H; inversion H | intros [x Hx]; discriminate].
  - destruct (String.eqb k m) eqn:Hk; simpl.
    + apply String.eqb_eq in Hk as ->. split; [eauto|].
      intros _. apply elem_of_cons. left. reflexivity.
    + apply String.eqb_neq in Hk. rewrite elem_of_cons, IH.
      split; [intros [Heq | H]; [congruence | exact H] | auto].
Qed.

Lemma add_missing_elem_of ms : ∀ l x,
  x ∈ add_missing ms l ↔ x ∈ l ∨ x ∈ ms.
Proof.
  unfold add_missing.
  induction ms as [|m ms IH]; intros l x; simpl.
  - split; [auto | intros [H | H]; [exact H | inversion H]].
  - rewrite IH, elem_of_cons. destruct (found l m) eqn:Hf.
    + apply found_elem_of in Hf. split; [intros [H | H]; auto|].
      intros [H | [-> | H]]; auto.
    + rewrite elem_of_app, list_elem_of_singleton. tauto.
Qed.

Lemma add_missing_NoDup ms : ∀ l,
  NoDup ms →
  add_missing ms l = (l ++ List.filter (λ m, negb (found l m)) ms)%list.
Proof.
  unfold add_missing.
  induction ms as [|m ms IH]; intros l Hnd; simpl.
  - rewrite app_nil_r. reflexivity.
  - apply NoDup_cons in Hnd as [Hm Hnd]. rewrite (IH _ Hnd).
    destruct (found l m) eqn:Hf; simpl; [reflexivity|].
    rewrite <- app_assoc. simpl. do 2 f_equal.
    apply filter_ext_in. intros x Hx%list_elem_of_In. f_equal.
    unfold found. rewrite existsb_app. simpl.
    destruct (String.eqb x m) eqn:Hxm; [|rewrite !orb_false_r; reflexivity].
    apply String.eqb_eq in Hxm as ->. contradiction.
Qed.

Lemma candidates_sorted global d :
  global = true ∨ desktop_items d = None ∨ desktop_items d = Some [] →
  candidates global d = merge_sort (≤)%string (keys d).
Proof.
  unfold candidates. intros [-> | [-> | ->]]; [reflexivity | |];
    destruct global; reflexivity.
Qed.

Lemma keys_candidates global d m : m ∈ keys d → m ∈ candidates global d.
Proof.
  intros Hm.
  assert (Hs : m ∈ merge_sort (≤)%string (keys d))
    by (rewrite merge_sort_Permutation; exact Hm).
  unfold candidates. destruct global; [exact Hs|].
  destruct (desktop_items d) as [[|u us]|]; try exact Hs.
  destruct (add_missing (keys d) (u :: us)) as [|x l] eqn:Ha; [exact Hs|].
  rewrite <- Ha. apply add_missing_elem_of. right. exact Hm.
Qed.

Lemma throws_stale global d :
  throws global d = true ↔
  ∃ h m, hidden_modules d = Some h ∧ m ∈ candidates global d
         ∧ m ∈ h ∧ module_of d m = None ∧ m ∉ prototype d.
Proof.
  unfold throws. destruct (hidden_modules d) as [h|].
  - rewrite existsb_exists. unfold stale. split.
    + intros (m & Hm & Hs). apply andb_true_iff in Hs as [Hs Hp].
      apply andb_true_iff in Hs as [Hf Hn].
      exists h, m. split; [reflexivity|].
      split; [apply list_elem_of_In; exact Hm|].
      split; [apply found_elem_of; exact Hf|].
      split; [destruct (module_of d m); [discriminate | reflexivity]|].
      apply found_false. destruct (found (prototype d) m);
        [discriminate | reflexivity].
    + intros (h' & m & [= <-] & Hm & Hh & Hn & Hp). exists m.
      split; [apply list_elem_of_In; exact Hm|].
      apply andb_true_iff. split; [apply andb_true_iff; split|].
      * apply found_elem_of. exact Hh.
      * rewrite Hn. reflexivity.
      * apply found_false in Hp. rewrite Hp. reflexivity.
  - split; [discriminate | intros (h & m & H & _); discriminate].
Qed.

Lemma candidates_elem_of global d m :
  m ∈ candidates global d →
  m ∈ keys d
  ∨ (global = false ∧ ∃ u, desktop_items d = Some u ∧ m ∈ u).
Proof.
  assert (Hs : m ∈ merge_sort (≤)%string (keys d) → m ∈ keys d)
    by (rewrite merge_sort_Permutation; auto).
  unfold candidates. destruct global; [auto|].
  destruct (desktop_items d) as [[|u us]|]; auto.
  destruct (add_missing (keys d) (u :: us)) as [|x l] eqn:Ha; [auto|].
  rewrite <- Ha. intros [H | H]%add_missing_elem_of; [|auto].
  right. split; [reflexivity|]. eauto.
Qed.

(** X10: when [get_desktop_items] returns, its list is the candidates
    (the user's stored order completed by the missing modules, or all
    modules sorted) that pass both filters, in the order of the
    candidates.  No module of the hidden list is on it unless its entry
    says [force_show]; a module of type "module" is on it only if allowed
    for the user, one of type "page" only if its link is an allowed page,
    one of type "list" only if its doctype can be read. *)
Theorem get_desktop_items_listed global d l :
  get_desktop_items global d = Some l →
  l = List.filter (λ m, unhidden d m && permitted d m) (candidates global d)
  ∧ sublist l (candidates global d)
  ∧ (∀ m, m ∈ l ↔ m ∈ candidates global d
                  ∧ unhidden d m = true ∧ permitted d m = true)
  ∧ (∀ m h, m ∈ l → hidden_modules d = Some h → m ∈ h →
       ∃ md, module_of d m = Some md ∧ force_show md = true)
  ∧ (∀ m md, m ∈ l → module_of d m = Some md →
       (type md = Some "module" → m ∈ allow_modules d)
       ∧ (type md = Some "page" →
          ∃ p, link md = Some p ∧ p ∈ allowed_pages d)
       ∧ (type md = Some "list" → can_read d (doctype md) = true)).
Proof.
  rewrite get_desktop_items_filter.
  destruct (throws global d); [discriminate|]. intros [= <-].
  split; [reflexivity|]. split; [apply filter_sublist|].
  assert (Hin : ∀ m, m ∈ List.filter (λ m, unhidden d m && permitted d m)
                           (candidates global d)
                ↔ m ∈ candidates global d
                  ∧ unhidden d m = true ∧ permitted d m = true).
  { intros m. rewrite filter_elem_of, andb_true_iff. reflexivity. }
  split; [exact Hin|]. split.
  - intros m h (_ & Hu & _)%Hin Hh Hm. unfold unhidden in Hu.
    rewrite Hh in Hu. apply found_elem_of in Hm. rewrite Hm in Hu.
    simpl in Hu. destruct (module_of d m) as [md|]; [eauto | discriminate].
  - intros m md (_ & _ & Hp)%Hin Hmd. unfold permitted, if_permitted in Hp.
    rewrite Hmd in Hp. simpl in Hp.
    split; [|split]; intros Ht; rewrite Ht in Hp; simpl in Hp.
    + destruct (found (allow_modules d) m) eqn:Hf; [|discriminate].
      apply found_elem_of. exact Hf.
    + destruct (link md) as [p|]; [|discriminate].
      destruct (found (allowed_pages d) p) eqn:Hf; [|discriminate].
      exists p. split; [reflexivity | apply found_elem_of; exact Hf].
    + destruct (can_read d (doctype md)); [reflexivity | discriminate].
Qed.

(** X11: [get_desktop_items] ends in the TypeError exactly when a
    candidate is on the hidden list and [frappe.modules] neither has an
    entry for it nor inherits one from [Object.prototype].  Such a
    candidate can only come from the user's stored list: with [global]
    set the call always returns.  A hidden candidate that [frappe.modules]
    only inherits ("constructor") raises nothing: it is dropped from the
    list. *)
Theorem get_desktop_items_throws global d :
  (get_desktop_items global d = None ↔
   ∃ h m, hidden_modules d = Some h ∧ m ∈ candidates global d
          ∧ m ∈ h ∧ module_of d m = None ∧ m ∉ prototype d)
  ∧ (get_desktop_items global d = None →
     global = false
     ∧ ∃ h u m, hidden_modules d = Some h ∧ desktop_items d = Some u
                ∧ m ∈ u ∧ m ∈ h ∧ (m ∉ keys d) ∧ m ∉ prototype d)
  ∧ is_Some (get_desktop_items true d)
  ∧ (∀ h m l, hidden_modules d = Some h → m ∈ h →
       module_of d m = None → m ∈ prototype d →
       unless_hidden d h m = Some None
       ∧ (get_desktop_items global d = Some l → m ∉ l)).
Proof.
  assert (H1 : get_desktop_items global d = None ↔
               ∃ h m, hidden_modules d = Some h ∧ m ∈ candidates global d
                      ∧ m ∈ h ∧ module_of d m = None ∧ m ∉ prototype d).
  { rewrite <- throws_stale, get_desktop_items_filter.
    destruct (throws global d); split; congruence. }
  assert (H2 : ∀ g, get_desktop_items g d = None →
               g = false
               ∧ ∃ h u m, hidden_modules d = Some h ∧ desktop_items d = Some u
                          ∧ m ∈ u ∧ m ∈ h ∧ (m ∉ keys d) ∧ m ∉ prototype d).
  { intros g Hn.
    assert (Hg : ∃ h m, hidden_modules d = Some h ∧ m ∈ candidates g d
                        ∧ m ∈ h ∧ module_of d m = None ∧ m ∉ prototype d).
    { rewrite <- throws_stale. rewrite get_desktop_items_filter in Hn.
      destruct (throws g d); [reflexivity | discriminate]. }
    destruct Hg as (h & m & Hh & Hc & Hm & Hnone & Hp).
    assert (Hk : m ∉ keys d).
    { intros Hk%module_of_keys. rewrite Hnone in Hk. destruct Hk; discriminate. }
    apply candidates_elem_of in Hc as [Hc | (-> & u & Hu & Hmu)];
      [contradiction|].
    split; [reflexivity|]. eauto 10. }
  split; [exact H1|]. split; [apply H2|]. split.
  { destruct (get_desktop_items true d) eqn:Ht; [eauto|].
    apply H2 in Ht as [Ht _]. discriminate. }
  intros h m l Hh Hm Hnone Hp. split.
  - unfold unless_hidden. apply found_elem_of in Hm, Hp.
    rewrite Hm, Hnone, Hp. reflexivity.
  - rewrite get_desktop_items_filter.
    destruct (throws global d); [discriminate|]. intros [= <-].
    rewrite filter_elem_of. intros [_ Hok].
    apply andb_true_iff in Hok as [Hu _]. unfold unhidden in Hu.
    apply found_elem_of in Hm. rewrite Hh, Hm, Hnone in Hu. discriminate.
Qed.

(** X12: with [global] set, or without a stored list (none, or an empty
    one), [get_desktop_items] returns, and what it returns is in code-unit
    order: the modules of [frappe.modules] that pass both filters, each as
    often as it is a key. *)
Theorem get_desktop_items_sorted global d :
  global = true ∨ desktop_items d = None ∨ desktop_items d = Some [] →
  ∃ l, get_desktop_items global d = Some l
    ∧ StronglySorted (≤)%string l
    ∧ (∀ m, m ∈ l ↔ m ∈ keys d ∧ unhidden d m = true ∧ permitted d m = true)
    ∧ (NoDup (keys d) → NoDup l).
Proof.
  intros Hcase. pose proof (candidates_sorted global d Hcase) as Hc.
  assert (Hperm : candidates global d ≡ₚ keys d)
    by (rewrite Hc; apply merge_sort_Permutation).
  rewrite get_desktop_items_filter.
  assert (Hthrows : throws global d = false).
  { destruct (throws global d) eqn:Ht; [|reflexivity].
    apply throws_stale in Ht as (h & m & _ & Hm & _ & Hn & _).
    rewrite Hperm in Hm. apply module_of_keys in Hm. rewrite Hn in Hm.
    destruct Hm; discriminate. }
  rewrite Hthrows. eexists. split; [reflexivity|]. split.
  { apply filter_StronglySorted. rewrite Hc.
    apply StronglySorted_merge_sort; apply _. }
  split.
  { intros m. rewrite filter_elem_of, andb_true_iff, Hperm. reflexivity. }
  intros Hnd. eapply sublist_NoDup; [|apply filter_sublist].
  rewrite Hperm. exact Hnd.
Qed.

(** X13: without [global] and with a stored list that is not empty, the
    list returned keeps the user's order: first the stored modules that
    pass both filters, then the modules of [frappe.modules] that the
    stored list lacks and that pass, in the order of the keys. *)
Theorem get_desktop_items_preference d u us l :
  desktop_items d = Some (u :: us) →
  NoDup (keys d) →
  get_desktop_items false d = Some l →
  let ok := λ m, unhidden d m && permitted d m in
  candidates false d
  = ((u :: us) ++ List.filter (λ m, negb (found (u :: us) m)) (keys d))%list
  ∧ l = (List.filter ok (u :: us)
         ++ List.filter ok
              (List.filter (λ m, negb (found (u :: us) m)) (keys d)))%list.
Proof.
  intros Hu Hnd Hl ok.
  assert (Hc : candidates false d
               = ((u :: us)
                  ++ List.filter (λ m, negb (found (u :: us) m)) (keys d))%list).
  { unfold candidates. rewrite Hu, add_missing_NoDup by exact Hnd.
    reflexivity. }
  split; [exact Hc|].
  rewrite get_desktop_items_filter in Hl.
  destruct (throws false d); [discriminate|]. injection Hl as <-.
  rewrite Hc. apply List.filter_app.
Qed.

(** ** The helpers on concrete input *)

Lemma user_info_abbr_witness :
  ∃ r table,
    user_info (λ s, s) "Administrator" Object_prototype (Some (Some ∅))
      (Some "constructor") = Some (r, table)
    ∧ r = builtin "constructor" ""
    ∧ Some (Some ∅) = Some table
    ∧ user_info (λ s, s) "Administrator" Object_prototype (Some (Some ∅))
        (Some "jane@example.com")
      = Some (entry {| fullname := Some "jane"; image := None;
                       abbr := Some "j" |}, Some ∅)
    ∧ user_info (λ s, s) "Administrator" Object_prototype None
        (Some "jane@example.com") = None.
Proof.
  exists (builtin "constructor" ""), (Some ∅).
  assert (Hcall : user_info (λ s, s) "Administrator" Object_prototype
                    (Some (Some ∅)) (Some "constructor")
                  = Some (builtin "constructor" "", Some ∅))
    by (vm_compute; reflexivity).
  split; [exact Hcall|].
  destruct (proj2 (user_info_abbr (λ s, s) "Administrator" Object_prototype
                     (Some (Some ∅)) (Some "constructor")) _ _ Hcall)
    as (_ & _ & _ & Hm).
  destruct (Hm "constructor") as (_ & _ & Hr & Ht); [vm_compute; reflexivity|].
  split; [exact Hr|]. split; [exact Ht|]. split; vm_compute; reflexivity.
Defined.

Lemma user_info_caches_witness :
  ∃ info' table',
    user_info (λ s, s) "Administrator" Object_prototype
      (Some (Some {["jane@example.com" :=
                      {| fullname := Some "Jane van Doe"; image := None;
                         abbr := None |}]}))
      (Some "jane@example.com") = Some (entry info', Some table')
    ∧ abbr info' = Some "Jv"
    ∧ table' !! "jane@example.com" = Some info'.
Proof.
  destruct (user_info_caches (λ s, s) "Administrator" Object_prototype
              {["jane@example.com" :=
                  {| fullname := Some "Jane van Doe"; image := None;
                     abbr := None |}]}
              (Some "jane@example.com")
              {| fullname := Some "Jane van Doe"; image := None;
                 abbr := None |})
    as (info' & table' & H1 & _ & _ & H2 & H3 & _).
  - reflexivity.
  - exists info', table'. split; [exact H1|]. split; [exact H2 | exact H3].
Defined.

Lemma get_gravatar_caches_witness :
  get_gravatar (λ s, "md5") Object_prototype ∅ "constructor"
  = (member "constructor", ∅)
  ∧ get_gravatar (λ s, "md5") Object_prototype ∅ "jane@example.com"
    = (own "https://secure.gravatar.com/avatar/md5?d=retro",
       {["jane@example.com"
         := "https://secure.gravatar.com/avatar/md5?d=retro"]}).
Proof.
  split.
  - pose proof (proj2 (proj2 (proj2 (proj2 (proj2
                  (get_gravatar_caches (λ s, "md5") Object_prototype ∅
                     "constructor")))))) as H.
    simpl in H. exact H.
  - pose proof (proj2 (proj2 (proj2 (proj2 (proj2
                  (get_gravatar_caches (λ s, "md5") Object_prototype ∅
                     "jane@example.com")))))) as H.
    simpl in H. exact H.
Defined.

Lemma get_desktop_items_listed_witness :
  get_desktop_items false sample_desk = Some ["Ghost"; "Zeta"; "Alpha"]
  ∧ sublist ["Ghost"; "Zeta"; "Alpha"] (candidates false sample_desk).
Proof.
  split; [reflexivity|].
  apply (get_desktop_items_listed false sample_desk). reflexivity.
Defined.

Lemma get_desktop_items_throws_witness :
  get_desktop_items false sample_desk_stale = None
  ∧ get_desktop_items true sample_desk_stale = Some ["Alpha"; "Mid"; "Zeta"]
  ∧ get_desktop_items false sample_desk_inherited
    = Some ["Mid"; "Zeta"; "Alpha"].
Proof.
  split; [|split; reflexivity].
  apply (proj1 (get_desktop_items_throws false sample_desk_stale)).
  exists ["Ghost"], "Ghost". split; [reflexivity|].
  split; [vm_compute; apply elem_of_cons; right; apply elem_of_cons; left;
          reflexivity|].
  split; [apply elem_of_cons; left; reflexivity|].
  split; [reflexivity|].
  apply found_false. reflexivity.
Defined.

Lemma get_desktop_items_sorted_witness :
  ∃ l, get_desktop_items true sample_desk = Some l
    ∧ StronglySorted (≤)%string l
    ∧ l = ["Alpha"; "Zeta"].
Proof.
  destruct (get_desktop_items_sorted true sample_desk) as (l & Hl & Hs & _).
  - left. reflexivity.
  - exists l. split; [exact Hl|]. split; [exact Hs|].
    vm_compute in Hl. congruence.
Defined.

Lemma get_desktop_items_preference_witness :
  candidates false sample_desk = ["Mid"; "Ghost"; "Zeta"; "Alpha"]
  ∧ get_desktop_items false sample_desk
    = Some (["Ghost"] ++ ["Zeta"; "Alpha"])%list.
Proof.
  split; [reflexivity|].
  destruct (get_desktop_items_preference sample_desk "Mid" ["Ghost"]
              ["Ghost"; "Zeta"; "Alpha"]) as [_ H].
  - reflexivity.
  - vm_compute. repeat constructor; rewrite ?elem_of_cons;
      intros H; repeat (destruct H as [H | H]; [discriminate H|]);
      inversion H.
  - reflexivity.
  - reflexivity.
Defined.
